(** * RangeManager (power-range): a shallow embedding of [src/index.ts]

    The development follows the layout of the TypeScript source:

    - [JS]: the fragment of JavaScript values and coercions the source relies
      on (truthiness for [||], [==], [===], the relational operators,
      [Math.min] and [Math.max]);
    - [Obj]: plain objects used as records, with the order in which
      [Object.keys] and [Object.entries] list their properties;
    - [Sheets]: the spreadsheet backing store the class talks to;
    - the class itself, one definition per method, in an exception-and-state
      monad that keeps the manager's state on a throw;
    - the properties, one theorem per claim of the specification (C1 to
      C10), each after the lemmas it needs. *)

From Stdlib Require Import ZArith List String Ascii Bool Lia DecimalString.
Import ListNotations.
Local Open Scope string_scope.
Local Open Scope Z_scope.

Set Warnings "-register-all".

(* ===================================================================== *)
(** * JavaScript values *)
(* ===================================================================== *)

Module JS.

(** Numbers.  The integer-valued doubles, the two infinities ([Math.min()]
    and [Math.max()] of no argument) and NaN.  Fractions and the sign of
    zero are outside this fragment. *)
Inductive number : Type :=
| NaN
| NegInf
| Fin (z : Z)
| PosInf.

(** Primitive values: what a cell read returns, what a record holds. *)
Inductive prim : Type :=
| PUndefined
| PNull
| PBool (b : bool)
| PNum (n : number)
| PStr (s : string).

(** Values a where-clause can carry: primitives, arrays, plain objects
    (own properties in insertion order) and regular expressions.  A RegExp
    is given by its text (what [toString] shows, flags included) and by the
    set of strings on which [exec] finds a match when it starts from
    [lastIndex] 0.  An expression with the [g] or [y] flag moves [lastIndex]
    at every call, so that its answers depend on the calls before; the model
    describes the other expressions only, and what is proved of [match] and
    [matchAny] is stated for them ([keeps_lastIndex] below). *)
Inductive value : Type :=
| VPrim (p : prim)
| VArr (elems : list value)
| VObj (props : list (string * value))
| VRegExp (text : string) (exec : string -> bool).

Coercion VPrim : prim >-> value.

(** ** Strings *)

(** [String(n)]: the decimal digits of an integer (the form JavaScript
    prints below [10^21]). *)
Definition number_to_string (n : number) : string :=
  match n with
  | NaN => "NaN"
  | NegInf => "-Infinity"
  | Fin z => NilZero.string_of_int (Z.to_int z)
  | PosInf => "Infinity"
  end.

(** [String(p)], also the property key [p] denotes in [o[p]]. *)
Definition prim_to_string (p : prim) : string :=
  match p with
  | PUndefined => "undefined"
  | PNull => "null"
  | PBool true => "true"
  | PBool false => "false"
  | PNum n => number_to_string n
  | PStr s => s
  end.

Fixpoint join (sep : string) (l : list string) : string :=
  match l with
  | [] => ""
  | [x] => x
  | x :: rest => x ++ sep ++ join sep rest
  end.

(** [String(v)].  [Array.prototype.join] renders [null] and [undefined]
    elements as the empty string. *)
Fixpoint to_string (v : value) : string :=
  match v with
  | VPrim p => prim_to_string p
  | VArr elems =>
      join "," (map (fun e => match e with
                              | VPrim PUndefined | VPrim PNull => ""
                              | _ => to_string e
                              end) elems)
  | VObj _ => "[object Object]"
  | VRegExp text _ => text
  end.

(** ** Regular expressions *)

(** The flags of a RegExp, read off its text: what follows the last [/]. *)
Fixpoint flags_from (flags s : string) : string :=
  match s with
  | EmptyString => flags
  | String c rest =>
      if Ascii.eqb c "/" then flags_from rest rest else flags_from flags rest
  end.

Definition regexp_flags (text : string) : string := flags_from "" text.

Fixpoint has_char (c : ascii) (s : string) : bool :=
  match s with
  | EmptyString => false
  | String c' rest => Ascii.eqb c c' || has_char c rest
  end.

(** Is the expression global ([g]) or sticky ([y])?  Those are the ones
    whose [exec] reads and writes [lastIndex]. *)
Definition keeps_lastIndex (text : string) : bool :=
  has_char "g" (regexp_flags text) || has_char "y" (regexp_flags text).

(** ** Numbers from strings *)

Definition is_space (c : ascii) : bool :=
  match nat_of_ascii c with
  | 9%nat | 10%nat | 11%nat | 12%nat | 13%nat | 32%nat => true
  | _ => false
  end.

Fixpoint trim_left (s : string) : string :=
  match s with
  | String c rest => if is_space c then trim_left rest else s
  | EmptyString => EmptyString
  end.

Fixpoint rev_string (acc s : string) : string :=
  match s with
  | EmptyString => acc
  | String c rest => rev_string (String c acc) rest
  end.

Definition trim (s : string) : string :=
  rev_string "" (trim_left (rev_string "" (trim_left s))).

(** Value of a digit, letters counting from ten. *)
Definition digit_of (c : ascii) : option Z :=
  let n := Z.of_nat (nat_of_ascii c) in
  if (48 <=? n) && (n <=? 57) then Some (n - 48)
  else if (97 <=? n) && (n <=? 102) then Some (n - 87)
  else if (65 <=? n) && (n <=? 70) then Some (n - 55)
  else None.

(** Value of a run of digits in [base], [acc] being the value read so far. *)
Fixpoint digits_from (base acc : Z) (s : string) : option Z :=
  match s with
  | EmptyString => Some acc
  | String c rest =>
      match digit_of c with
      | Some d => if d <? base then digits_from base (base * acc + d) rest
                  else None
      | None => None
      end
  end.

(** Value of a non-empty run of digits in [base]. *)
Definition digits (base : Z) (s : string) : option Z :=
  match s with
  | EmptyString => None
  | _ => digits_from base 0 s
  end.

Definition number_of_digits (d : option Z) : number :=
  match d with
  | Some z => Fin z
  | None => NaN
  end.

(** [Number(s)] on the fragment: blank is 0; [Infinity] with an optional
    sign, a decimal integer with an optional sign, and an unsigned
    hexadecimal, octal or binary integer are themselves; anything else is
    NaN (among it the fraction and exponent forms, which the fragment cannot
    hold). *)
Definition string_to_number (s : string) : number :=
  let t := trim s in
  if String.eqb t "" then Fin 0
  else if String.eqb t "Infinity" || String.eqb t "+Infinity" then PosInf
  else if String.eqb t "-Infinity" then NegInf
  else match t with
       | String "0"%char (String ("x" | "X")%char rest) =>
           number_of_digits (digits 16 rest)
       | String "0"%char (String ("o" | "O")%char rest) =>
           number_of_digits (digits 8 rest)
       | String "0"%char (String ("b" | "B")%char rest) =>
           number_of_digits (digits 2 rest)
       | String "-"%char rest =>
           match digits 10 rest with Some z => Fin (- z) | None => NaN end
       | String "+"%char rest => number_of_digits (digits 10 rest)
       | _ => number_of_digits (digits 10 t)
       end.

Definition prim_to_number (p : prim) : number :=
  match p with
  | PUndefined => NaN
  | PNull => Fin 0
  | PBool true => Fin 1
  | PBool false => Fin 0
  | PNum n => n
  | PStr s => string_to_number s
  end.

(** [ToPrimitive]: an object, array or RegExp becomes its string. *)
Definition to_primitive (v : value) : prim :=
  match v with
  | VPrim p => p
  | _ => PStr (to_string v)
  end.

Definition to_number (v : value) : number := prim_to_number (to_primitive v).

(** ** Truthiness and [||] *)

Definition truthy (p : prim) : bool :=
  match p with
  | PUndefined | PNull => false
  | PBool b => b
  | PNum NaN => false
  | PNum (Fin z) => negb (z =? 0)
  | PNum _ => true
  | PStr s => negb (String.eqb s "")
  end.

(** [a || b] *)
Definition or_else (a b : prim) : prim := if truthy a then a else b.

(** ** Equality *)

Definition number_eqb (a b : number) : bool :=
  match a, b with
  | NegInf, NegInf | PosInf, PosInf => true
  | Fin x, Fin y => x =? y
  | _, _ => false
  end.

(** [a === b] on primitives: same type and same value, NaN unequal to
    itself. *)
Definition prim_strict_eq (a b : prim) : bool :=
  match a, b with
  | PUndefined, PUndefined | PNull, PNull => true
  | PBool x, PBool y => Bool.eqb x y
  | PNum x, PNum y => number_eqb x y
  | PStr x, PStr y => String.eqb x y
  | _, _ => false
  end.

(** SameValueZero, the test of [Array.prototype.includes]: as [===] but NaN
    equals itself. *)
Definition prim_same_value_zero (a b : prim) : bool :=
  match a, b with
  | PNum NaN, PNum NaN => true
  | _, _ => prim_strict_eq a b
  end.

(** [a == b] on primitives. *)
Definition prim_loose_eq (a b : prim) : bool :=
  match a, b with
  | (PUndefined | PNull), (PUndefined | PNull) => true
  | (PUndefined | PNull), _ | _, (PUndefined | PNull) => false
  | PStr x, PStr y => String.eqb x y
  | _, _ => number_eqb (prim_to_number a) (prim_to_number b)
  end.

(** The left operand of every comparison of the source is a cell value, a
    primitive.  Against an array, object or RegExp, [===] is false (the
    types differ) and [==] compares with the operand's primitive, except
    that [null] and [undefined] equal no object. *)
Definition strict_eq (a : prim) (b : value) : bool :=
  match b with
  | VPrim q => prim_strict_eq a q
  | _ => false
  end.

Definition same_value_zero (a : prim) (b : value) : bool :=
  match b with
  | VPrim q => prim_same_value_zero a q
  | _ => false
  end.

Definition loose_eq (a : prim) (b : value) : bool :=
  match b with
  | VPrim q => prim_loose_eq a q
  | _ => match a with
         | PUndefined | PNull => false
         | _ => prim_loose_eq a (to_primitive b)
         end
  end.

(** ** Ordering *)

Definition number_ltb (a b : number) : bool :=
  match a, b with
  | NaN, _ | _, NaN => false
  | NegInf, NegInf => false
  | NegInf, _ => true
  | _, NegInf => false
  | PosInf, _ => false
  | Fin _, PosInf => true
  | Fin x, Fin y => x <? y
  end.

Definition number_leb (a b : number) : bool :=
  match a, b with
  | NaN, _ | _, NaN => false
  | _, _ => negb (number_ltb b a)
  end.

Fixpoint string_ltb (a b : string) : bool :=
  match a, b with
  | _, EmptyString => false
  | EmptyString, String _ _ => true
  | String x a', String y b' =>
      let i := nat_of_ascii x in
      let j := nat_of_ascii y in
      if Nat.ltb i j then true
      else if Nat.ltb j i then false
      else string_ltb a' b'
  end.

(** [a < b]: two strings compare by code units, anything else as numbers. *)
Definition prim_lt (a b : prim) : bool :=
  match a, b with
  | PStr x, PStr y => string_ltb x y
  | _, _ => number_ltb (prim_to_number a) (prim_to_number b)
  end.

(** [a <= b] *)
Definition prim_le (a b : prim) : bool :=
  match a, b with
  | PStr x, PStr y => negb (string_ltb y x)
  | _, _ => number_leb (prim_to_number a) (prim_to_number b)
  end.

Definition lt (a : prim) (b : value) : bool := prim_lt a (to_primitive b).
Definition le (a : prim) (b : value) : bool := prim_le a (to_primitive b).
Definition gt (a : prim) (b : value) : bool := prim_lt (to_primitive b) a.
Definition ge (a : prim) (b : value) : bool := prim_le (to_primitive b) a.

(** [Math.min(...xs)] and [Math.max(...xs)]: NaN as soon as one argument is
    NaN, the infinities on no argument. *)
Definition number_min (a b : number) : number :=
  match a, b with
  | NaN, _ | _, NaN => NaN
  | NegInf, _ | _, NegInf => NegInf
  | PosInf, x | x, PosInf => x
  | Fin x, Fin y => Fin (Z.min x y)
  end.

Definition number_max (a b : number) : number :=
  match a, b with
  | NaN, _ | _, NaN => NaN
  | PosInf, _ | _, PosInf => PosInf
  | NegInf, x | x, NegInf => x
  | Fin x, Fin y => Fin (Z.max x y)
  end.

Definition Math_min (xs : list value) : number :=
  fold_left (fun acc x => number_min acc (to_number x)) xs PosInf.

Definition Math_max (xs : list value) : number :=
  fold_left (fun acc x => number_max acc (to_number x)) xs NegInf.

End JS.

(* ===================================================================== *)
(** * Plain objects *)
(* ===================================================================== *)

(** An object used as a record: its own properties, in the order they were
    created.  The properties every object inherits from [Object.prototype]
    are not part of the record: [get] and [set] describe [o[k]] and
    [o[k] = v] for the names that are not inherited ([plain]), and for an
    inherited name other than [__proto__] when the object has it as an own
    property.  What is proved of a read that finds no own property, or of a
    write under [__proto__], is stated for plain names. *)
Module Obj.

Section Objects.
Context {A : Type}.

Definition t : Type := list (string * A).

(** [o[k]] when [k] is an own property. *)
Fixpoint get (o : t) (k : string) : option A :=
  match o with
  | [] => None
  | (k', v) :: rest => if String.eqb k' k then Some v else get rest k
  end.

(** [o[k] = v]: an existing property keeps its place, a new one goes last. *)
Fixpoint set (o : t) (k : string) (v : A) : t :=
  match o with
  | [] => [(k, v)]
  | (k', v') :: rest =>
      if String.eqb k' k then (k', v) :: rest else (k', v') :: set rest k v
  end.

(** A canonical array index: the decimal form of an integer below
    [2^32 - 1].  Such keys are enumerated first, in ascending numeric
    order. *)
Definition array_index (k : string) : option Z :=
  match JS.digits 10 k with
  | Some n =>
      if String.eqb (JS.number_to_string (JS.Fin n)) k && (n <=? 4294967294)
      then Some n else None
  | None => None
  end.

Fixpoint insert_sorted (n : Z) (e : string * A) (l : list (Z * (string * A)))
  : list (Z * (string * A)) :=
  match l with
  | [] => [(n, e)]
  | (n', e') :: rest =>
      if n <=? n' then (n, e) :: l else (n', e') :: insert_sorted n e rest
  end.

Definition indexed (o : t) : list (Z * (string * A)) :=
  flat_map (fun e => match array_index (fst e) with
                     | Some n => [(n, e)]
                     | None => []
                     end) o.

Definition named (o : t) : t :=
  filter (fun e => match array_index (fst e) with
                   | Some _ => false
                   | None => true
                   end) o.

(** [Object.entries(o)]: integer keys ascending, then the other keys in
    creation order. *)
Definition entries (o : t) : list (string * A) :=
  map snd (fold_right (fun ne acc => insert_sorted (fst ne) (snd ne) acc)
                      [] (indexed o))
  ++ named o.

(** [Object.keys(o)] *)
Definition keys (o : t) : list string := map fst (entries o).

(** [Object.values(o)] *)
Definition values (o : t) : list A := map snd (entries o).

End Objects.

Arguments t : clear implicits.

(** The property names of [Object.prototype]: [o[k]] finds a value under
    each of them in every plain object, and [o.__proto__ = v] creates no own
    property. *)
Definition prototype_names : list string :=
  [ "constructor"; "__defineGetter__"; "__defineSetter__"; "hasOwnProperty";
    "__lookupGetter__"; "__lookupSetter__"; "isPrototypeOf";
    "propertyIsEnumerable"; "toString"; "valueOf"; "__proto__";
    "toLocaleString" ].

(** A name no object inherits. *)
Definition plain (k : string) : bool :=
  negb (existsb (String.eqb k) prototype_names).

End Obj.

(* ===================================================================== *)
(** * The backing store *)
(* ===================================================================== *)

(** Modelled from the spec: the spreadsheet service ([SpreadsheetApp], its
    [Sheet] and [Range] classes) is an external collaborator of the
    repository; only its interface is fixed (read a region, read a cell,
    write a region, clear a region, last row, last column, delete a row,
    locate a sheet by name).  A sheet is the grid of its cell values, rows
    and columns numbered from 1, an empty cell reading as the empty string.
    Failures of the service itself are not modelled: every operation is
    total, a coordinate below 1 (which the service rejects) reading as empty
    and writing nothing. *)
Module Sheets.

Import JS.

Definition Sheet : Type := list (list prim).

Definition blank : prim := PStr "".

Definition is_blank (p : prim) : bool :=
  match p with
  | PStr s => String.eqb s ""
  | _ => false
  end.

(** [sheet.getRange(row, column).getValue()] *)
Definition getValue (s : Sheet) (row column : Z) : prim :=
  if (1 <=? row) && (1 <=? column)
  then nth (Z.to_nat (column - 1)) (nth (Z.to_nat (row - 1)) s []) blank
  else blank.

(** [sheet.getRange(row, column, numRows, numColumns).getValues()] *)
Definition getValues (s : Sheet) (row column numRows numColumns : Z)
  : list (list prim) :=
  map (fun i =>
         map (fun j => getValue s (row + Z.of_nat i) (column + Z.of_nat j))
             (seq 0 (Z.to_nat numColumns)))
      (seq 0 (Z.to_nat numRows)).

(** One row of a write: the cells of [new] laid over [old] from offset
    [c0]. *)
Definition write_row (c0 : nat) (new old : list prim) : list prim :=
  map (fun j =>
         if (c0 <=? j)%nat && (j <? c0 + List.length new)%nat
         then nth (j - c0) new blank
         else nth j old blank)
      (seq 0 (Nat.max (List.length old) (c0 + List.length new))).

(** [sheet.getRange(row, column, ...).setValues(data)]: the block [data]
    laid over the grid with its top-left corner at [(row, column)]. *)
Definition setValues (s : Sheet) (row column : Z) (data : list (list prim))
  : Sheet :=
  if (1 <=? row) && (1 <=? column)
  then
    let r0 := Z.to_nat (row - 1) in
    let c0 := Z.to_nat (column - 1) in
    map (fun i =>
           let old := nth i s [] in
           if (r0 <=? i)%nat && (i <? r0 + List.length data)%nat
           then write_row c0 (nth (i - r0) data []) old
           else old)
        (seq 0 (Nat.max (List.length s) (r0 + List.length data)))
  else s.

(** [sheet.getRange(row, column, numRows, numColumns).clearContent()] *)
Definition clearContent (s : Sheet) (row column numRows numColumns : Z)
  : Sheet :=
  setValues s row column
            (repeat (repeat blank (Z.to_nat numColumns)) (Z.to_nat numRows)).

(** [sheet.deleteRow(row)]: the rows below move up by one. *)
Definition deleteRow (s : Sheet) (row : Z) : Sheet :=
  if 1 <=? row
  then (firstn (Z.to_nat (row - 1)) s ++ skipn (Z.to_nat row) s)%list
  else s.

(** Position of the last element that is not [empty], 0 when there is
    none. *)
Fixpoint last_position {X : Type} (empty : X -> bool) (l : list X) : nat :=
  match l with
  | [] => 0
  | x :: rest =>
      match last_position empty rest with
      | O => if empty x then 0%nat else 1%nat
      | S k => S (S k)
      end
  end.

(** [sheet.getLastRow()]: the last row that has content. *)
Definition getLastRow (s : Sheet) : Z :=
  Z.of_nat (last_position (forallb is_blank) s).

(** [sheet.getLastColumn()]: the last column that has content. *)
Definition getLastColumn (s : Sheet) : Z :=
  Z.of_nat (fold_right (fun r acc => Nat.max (last_position is_blank r) acc)
                       0%nat s).

(** [SpreadsheetApp.getActiveSpreadsheet()]: the sheets by name. *)
Definition Spreadsheet : Type := list (string * Sheet).

(** [spreadsheet.getSheetByName(name)], [null] when there is none. *)
Fixpoint getSheetByName (ss : Spreadsheet) (name : string) : option Sheet :=
  match ss with
  | [] => None
  | (n, s) :: rest => if String.eqb n name then Some s else getSheetByName rest name
  end.

End Sheets.

(* ===================================================================== *)
(** * The class *)
(* ===================================================================== *)

Import JS Sheets.

(** What a [throw] carries: [Error(message)] raised by the source itself,
    or the [TypeError] of the runtime when the source calls something that
    is not a function or spreads something that is not iterable. *)
Inductive error : Type :=
| Error (message : string)
| TypeError (message : string).

Inductive result (A : Type) : Type :=
| Ok (a : A)
| Err (e : error).

Arguments Ok {A} a.
Arguments Err {A} e.

(** ** Arrays with callbacks that may throw *)

(** [xs.map(f)] *)
Fixpoint map_result {A B : Type} (f : A -> result B) (xs : list A)
  : result (list B) :=
  match xs with
  | [] => Ok []
  | x :: rest =>
      match f x with
      | Err e => Err e
      | Ok y => match map_result f rest with
                | Err e => Err e
                | Ok ys => Ok (y :: ys)
                end
      end
  end.

(** [xs.every(f)]: stops at the first [false]. *)
Fixpoint every_result {A : Type} (f : A -> result bool) (xs : list A)
  : result bool :=
  match xs with
  | [] => Ok true
  | x :: rest =>
      match f x with
      | Err e => Err e
      | Ok false => Ok false
      | Ok true => every_result f rest
      end
  end.

(** [xs.some(f)]: stops at the first [true]. *)
Fixpoint some_result {A : Type} (f : A -> result bool) (xs : list A)
  : result bool :=
  match xs with
  | [] => Ok false
  | x :: rest =>
      match f x with
      | Err e => Err e
      | Ok true => Ok true
      | Ok false => some_result f rest
      end
  end.

(** [xs.filter(f)] *)
Fixpoint filter_result {A : Type} (f : A -> result bool) (xs : list A)
  : result (list A) :=
  match xs with
  | [] => Ok []
  | x :: rest =>
      match f x with
      | Err e => Err e
      | Ok keep => match filter_result f rest with
                   | Err e => Err e
                   | Ok ys => Ok (if keep then x :: ys else ys)
                   end
      end
  end.

(** [xs.reduce(f, init)] *)
Fixpoint reduce_result {A B : Type} (f : B -> A -> result B) (xs : list A)
  (init : B) : result B :=
  match xs with
  | [] => Ok init
  | x :: rest =>
      match f init x with
      | Err e => Err e
      | Ok acc => reduce_result f rest acc
      end
  end.

(** [xs.includes(x)] on an array of primitives *)
Definition includes (xs : list prim) (x : prim) : bool :=
  existsb (fun y => prim_same_value_zero x y) xs.

(** [xs[i]], [undefined] out of range *)
Definition index (xs : list prim) (i : Z) : prim :=
  if 0 <=? i then nth (Z.to_nat i) xs PUndefined else PUndefined.

(** [data[name]] by own property, [undefined] when [data] has none of this
    name: the value of the source for every [Obj.plain] name. *)
Definition prop (data : Obj.t prim) (name : prim) : prim :=
  match Obj.get data (prim_to_string name) with
  | Some v => v
  | None => PUndefined
  end.

(** ** RangeNotation *)

Record RangeNotation : Type := mkRangeNotation
  { row : Z; column : Z; numRows : Z; numColumns : Z }.

(** [x || 1] on an optional number *)
Definition or_one (x : option Z) : Z :=
  match x with
  | Some z => if z =? 0 then 1 else z
  | None => 1
  end.

(** [new RangeNotation({row, column, numRows, numColumns})] *)
Definition new_RangeNotation (row column numRows numColumns : option Z)
  : RangeNotation :=
  mkRangeNotation (or_one row) (or_one column) (or_one numRows)
                  (or_one numColumns).

(** ** RangeManager *)

(** [configs]: the constructor sets [headerRowNumber], [firstRowNumber],
    [firstColumnNumber] and [offset] to the constants below and nothing
    assigns them afterwards; [lastColumnNumber] is the sheet's last column
    when the manager was made. *)
Definition headerRowNumber : Z := 1.
Definition firstRowNumber : Z := 2.
Definition firstColumnNumber : Z := 1.
Definition offset : Z := 1.

Definition WhereOptions : Type := Obj.t value.

Record RangeManager : Type := mkRangeManager
  { sheet : Sheet;
    ranges : list RangeNotation;
    whereOptions : option WhereOptions;
    lastColumnNumber : Z }.

Definition set_sheet (s : Sheet) (m : RangeManager) : RangeManager :=
  mkRangeManager s (ranges m) (whereOptions m) (lastColumnNumber m).

Definition set_ranges (rs : list RangeNotation) (m : RangeManager)
  : RangeManager :=
  mkRangeManager (sheet m) rs (whereOptions m) (lastColumnNumber m).

Definition set_whereOptions (w : option WhereOptions) (m : RangeManager)
  : RangeManager :=
  mkRangeManager (sheet m) (ranges m) w (lastColumnNumber m).

(** [new RangeManager({sheet})], also [RangeManager.from(sheetName)] *)
Definition from (ss : Spreadsheet) (sheetName : string) : result RangeManager :=
  match getSheetByName ss sheetName with
  | None => Err (Error ("Sheet " ++ sheetName ++ " not found"))
  | Some s => Ok (mkRangeManager s [] None (getLastColumn s))
  end.

(** The header mapping [{1: name1, 2: name2, ...}] is kept as the list of
    its entries [(position, name)] in the order [Object.entries] lists them.
    A name is the cell value itself. *)
Definition Headers : Type := list (Z * prim).

Definition header_names (headers : Headers) : list prim := map snd headers.

(** [get headers()] *)
Definition headers (m : RangeManager) : Headers :=
  let table := hd [] (getValues (sheet m) headerRowNumber firstColumnNumber
                                offset (lastColumnNumber m)) in
  combine (map (fun i => Z.of_nat i + 1) (seq 0 (List.length table))) table.

(** [RangeManager.serializeRow(headers, data, currentValues)] *)
Definition serializeRow (headers : Headers) (data : Obj.t prim)
  (currentValues : list prim) : list prim :=
  map (fun entry =>
         let '(idx, header) := entry in
         or_else (or_else (prop data header) (index currentValues (idx - 1)))
                 (PStr ""))
      headers.

Definition invalid_message (invalidCols : list string) : string :=
  "[ERROR] Invalid col name(s) found: " ++ join "," invalidCols.

(** [RangeManager.deserializeRow(headers, data, currentValues, colNames)] *)
Definition deserializeRow (headers : Headers) (data : Obj.t prim)
  (currentValues : list prim) (colNames : list string)
  : result (Obj.t prim) :=
  let invalidCols :=
    filter (fun colName =>
              Bool.eqb (includes (header_names headers) (PStr colName)) false)
           colNames in
  if (0 <? List.length invalidCols)%nat
  then Err (Error (invalid_message invalidCols))
  else
    let colNames :=
      if (List.length colNames =? 0)%nat
      then header_names headers
      else map PStr colNames in
    Ok (fold_left
          (fun total entry =>
             let '(idx, colName) := entry in
             if includes colNames colName
             then Obj.set total (prim_to_string colName)
                          (or_else (prop data colName)
                                   (index currentValues (idx - 1)))
             else total)
          headers []).

(** ** Methods that read and write the manager *)

(** A call either returns or throws; in both cases the manager is left in
    some state, which a caller holding the object still sees. *)
Inductive outcome (A : Type) : Type :=
| Return (a : A) (m : RangeManager)
| Throw (e : error) (m : RangeManager).

Arguments Return {A} a m.
Arguments Throw {A} e m.

Definition M (A : Type) : Type := RangeManager -> outcome A.

Definition ret {A : Type} (a : A) : M A := fun m => Return a m.

Definition bind {A B : Type} (c : M A) (k : A -> M B) : M B :=
  fun m => match c m with
           | Return a m' => k a m'
           | Throw e m' => Throw e m'
           end.

Definition throw {A : Type} (e : error) : M A := fun m => Throw e m.

Definition this : M RangeManager := fun m => Return m m.

Definition assign (f : RangeManager -> RangeManager) : M unit :=
  fun m => Return tt (f m).

Definition lift {A : Type} (r : result A) : M A :=
  match r with
  | Ok a => ret a
  | Err e => throw e
  end.

Declare Scope method_scope.
Delimit Scope method_scope with method.
Notation "x <- c ;; k" := (bind c (fun x => k))
  (at level 100, c at next level, right associativity) : method_scope.
Notation "c ;; k" := (bind c (fun _ => k))
  (at level 100, right associativity) : method_scope.
Local Open Scope method_scope.

(** The state a call leaves behind. *)
Definition final {A : Type} (o : outcome A) : RangeManager :=
  match o with
  | Return _ m => m
  | Throw _ m => m
  end.

Definition thrown {A : Type} (o : outcome A) : option error :=
  match o with
  | Return _ _ => None
  | Throw e _ => Some e
  end.

(** [xs.forEach(f)] *)
Fixpoint forEach {A : Type} (f : A -> M unit) (xs : list A) : M unit :=
  match xs with
  | [] => ret tt
  | x :: rest => f x ;; forEach f rest
  end.

(** [range.getValues()[0]] for the range of a notation; a missing row makes
    the callee's default [[]] apply. *)
Definition first_row_values (s : Sheet) (notation : RangeNotation)
  : list prim :=
  hd [] (getValues s (row notation) (column notation) (numRows notation)
                   (numColumns notation)).

(** The callback of [forEach] in [update]: one selected row is read, merged
    with [data] and written back. *)
Definition update_row (data : Obj.t prim) (notation : RangeNotation) : M unit :=
  m <- this ;;
  let values := first_row_values (sheet m) notation in
  deserialized <- lift (deserializeRow (headers m) data values []) ;;
  let serialized := serializeRow (headers m) deserialized [] in
  assign (set_sheet (setValues (sheet m) (row notation) (column notation)
                               [serialized])).

(** [update(data)] *)
Definition update (data : Obj.t prim) : M unit :=
  m <- this ;;
  if (0 <? List.length (ranges m))%nat
  then forEach (update_row data) (ranges m)
  else ret tt.

(** The rows [deleteRows] asks the sheet to delete, in call order:
    [Number(row) - index]. *)
Definition delete_targets (rs : list RangeNotation) : list Z :=
  map (fun ir => snd ir - Z.of_nat (fst ir))
      (combine (seq 0 (List.length rs)) (map row rs)).

(** [deleteRows()] *)
Definition deleteRows : M unit :=
  m <- this ;;
  if (0 <? List.length (ranges m))%nat
  then forEach (fun target =>
                  m <- this ;;
                  assign (set_sheet (deleteRow (sheet m) target)))
               (delete_targets (ranges m))
  else ret tt.

(** [append(data)] *)
Definition append (data : Obj.t prim) : M unit :=
  m <- this ;;
  let range := mkRangeNotation (getLastRow (sheet m) + 1) 1 1
                               (getLastColumn (sheet m)) in
  let values := serializeRow (headers m) data [] in
  assign (set_sheet (setValues (sheet m) (row range) (column range) [values])).

(** [prepend(data)] *)
Definition prepend (data : Obj.t prim) : M unit :=
  m <- this ;;
  let currentNumRows := getLastRow (sheet m) in
  let numColumns := getLastColumn (sheet m) in
  if negb (numColumns =? 0) && negb (currentNumRows =? 0)
  then
    let currentData := getValues (sheet m) 2 1 (currentNumRows - 1) numColumns in
    let newValues := serializeRow (headers m) data [] in
    let currentData := newValues :: currentData in
    assign (set_sheet (clearContent (sheet m) firstRowNumber firstColumnNumber
                                    1 numColumns)) ;;
    m <- this ;;
    assign (set_sheet (setValues (sheet m) firstRowNumber firstColumnNumber
                                 currentData))
  else ret tt.

(** [clear()] *)
Definition clear : M unit :=
  assign (set_ranges []) ;;
  assign (set_whereOptions None).

(** [fetch(colNames)] *)
Definition fetch (colNames : list string) : M (list (Obj.t prim)) :=
  m <- this ;;
  lift (map_result
          (fun values => deserializeRow (headers m) [] values colNames)
          (map (first_row_values (sheet m)) (ranges m))).

(** ** The operator catalogue of [where] *)

Definition Method : Type := prim -> JS.value -> result bool.

Fixpoint contains (needle hay : string) : bool :=
  String.prefix needle hay
  || match hay with
     | EmptyString => false
     | String _ rest => contains needle rest
     end.

Fixpoint chars (s : string) : list value :=
  match s with
  | EmptyString => []
  | String c rest => VPrim (PStr (String c EmptyString)) :: chars rest
  end.

(** [...expected]: arrays and strings are iterable. *)
Definition spread (expected : value) : result (list value) :=
  match expected with
  | VArr elems => Ok elems
  | VPrim (PStr s) => Ok (chars s)
  | _ => Err (TypeError "expected is not iterable")
  end.

(** [expected.includes(value)]: on an array by SameValueZero, on a string as
    a substring test. *)
Definition expected_includes (value : prim) (expected : JS.value) : result bool :=
  match expected with
  | VArr elems => Ok (existsb (same_value_zero value) elems)
  | VPrim (PStr s) => Ok (contains (prim_to_string value) s)
  | _ => Err (TypeError "expected.includes is not a function")
  end.

(** [exp.exec(value) !== null], for an expression without the [g] and [y]
    flags: the answer is the same at every call. *)
Definition exec_matches (value : prim) (exp : JS.value) : result bool :=
  match exp with
  | VRegExp _ exec => Ok (exec (prim_to_string value))
  | _ => Err (TypeError "exec is not a function")
  end.

(** [const methods = { equal: ..., deepEqual: ..., ... }] *)
Definition methods : Obj.t Method :=
  [ ("equal", fun value expected => Ok (loose_eq value expected));
    ("deepEqual", fun value expected => Ok (strict_eq value expected));
    ("gt", fun value expected => Ok (gt value expected));
    ("gte", fun value expected => Ok (ge value expected));
    ("lt", fun value expected => Ok (lt value expected));
    ("lte", fun value expected => Ok (le value expected));
    ("includes", fun value expected => expected_includes value expected);
    ("excludes", fun value expected =>
       match expected_includes value expected with
       | Ok b => Ok (Bool.eqb b false)
       | Err e => Err e
       end);
    ("between", fun value expected =>
       match spread expected with
       | Ok xs => Ok (ge value (PNum (Math_min xs))
                      && le value (PNum (Math_max xs)))
       | Err e => Err e
       end);
    ("match", fun value expected => exec_matches value expected);
    ("matchAny", fun value expected =>
       match expected with
       | VArr exps => some_result (exec_matches value) exps
       | _ => Err (TypeError "expected.some is not a function")
       end) ].

(** [methods[name](value, expected)] for the operators of the catalogue, and
    the [TypeError] of calling [undefined] for a name that is neither in the
    catalogue nor inherited ([Obj.plain]). *)
Definition call_method (name : string) (value : prim) (expected : JS.value)
  : result bool :=
  match Obj.get methods name with
  | Some method => method value expected
  | None => Err (TypeError "methods[method.name] is not a function")
  end.

(** ** [where] *)

(** One compiled column: [{ colId, methods }], [methods] being the list of
    [{ name, value }] pairs. *)
Record Column : Type := mkColumn
  { colId : Z; col_methods : list (string * value) }.

(** [isLiteralObject(input)]: [(!!input) && (input.constructor === Object)].
    A plain object answers [Object] for [constructor] unless it has an own
    property of this name, whose value (a primitive, an array, an object or
    a RegExp) is then not [Object]; arrays and regular expressions answer
    [Array] and [RegExp], and a primitive is either falsy or answers its
    wrapper. *)
Definition isLiteralObject (input : value) : bool :=
  match input with
  | VObj props =>
      match Obj.get props "constructor" with
      | Some _ => false
      | None => true
      end
  | _ => false
  end.

(** [options[colName]] *)
Definition option_value (options : WhereOptions) (colName : string) : value :=
  match Obj.get options colName with
  | Some v => v
  | None => VPrim PUndefined
  end.

(** [Object.entries(headers).find(([_, header]) => header === colName)] *)
Definition find_header (hs : Headers) (colName : string) : option (Z * prim) :=
  find (fun entry => prim_strict_eq (snd entry) (PStr colName)) hs.

(** The [{ name, value }] pairs a clause value compiles to: the entries of a
    plain object ([isLiteralObject]), a single [equal] pair otherwise. *)
Definition criterion_methods (criterion : value) : list (string * value) :=
  if isLiteralObject criterion
  then match criterion with
       | VObj props => Obj.entries props
       | _ => []
       end
  else [("equal", criterion)].

(** The callback of [colNames.map] in [where]. *)
Definition compile_column (headers : Headers) (options : WhereOptions)
  (colName : string) : result Column :=
  match find_header headers colName with
  | None => Err (Error ("No header found for column name: " ++ colName))
  | Some entry =>
      let colId := fst entry in
      let methods := criterion_methods (option_value options colName) in
      Ok (mkColumn colId methods)
  end.

(** [Array.from({ length }, (_, index) => index + firstRowNumber)] *)
Definition candidate_rows (length : Z) : list Z :=
  map (fun index => Z.of_nat index + firstRowNumber) (seq 0 (Z.to_nat length)).

(** The callback of [rows.filter] in [where]: does the cell of [row] pass
    every method of [column]? *)
Definition row_matches (s : Sheet) (column : Column) (row : Z) : result bool :=
  let value := getValue s row (colId column) in
  every_result (fun method => call_method (fst method) value (snd method))
               (col_methods column).

(** [where(options)] *)
Definition where_ (options : WhereOptions) : M unit :=
  assign (set_whereOptions (Some options)) ;;
  m <- this ;;
  let colNames := Obj.keys options in
  let invalidCols :=
    filter (fun colName =>
              Bool.eqb (includes (header_names (headers m)) (PStr colName)) false)
           colNames in
  if (0 <? List.length invalidCols)%nat
  then throw (Error (invalid_message invalidCols))
  else
    cols <- lift (map_result (compile_column (headers m) options) colNames) ;;
    rows <- lift (reduce_result
                    (fun rows column =>
                       filter_result (row_matches (sheet m) column) rows)
                    cols
                    (candidate_rows (getLastRow (sheet m)))) ;;
    assign (set_ranges
              (map (fun row =>
                      new_RangeNotation (Some row) None None
                                        (Some (getLastColumn (sheet m))))
                   rows)).

(** [refresh()] *)
Definition refresh : M unit :=
  m <- this ;;
  match whereOptions m with
  | Some options => where_ options
  | None => ret tt
  end.

(** [updateOrPrepend(data)] *)
Definition updateOrPrepend (data : Obj.t prim) : M unit :=
  m <- this ;;
  if (0 <? List.length (ranges m))%nat then update data else prepend data.

(** [updateOrAppend(data)] *)
Definition updateOrAppend (data : Obj.t prim) : M unit :=
  m <- this ;;
  if (0 <? List.length (ranges m))%nat then update data else append data.

(* ===================================================================== *)
(** * Properties *)
(* ===================================================================== *)

(** ** Vocabulary of the properties *)

(** [unchanged m m']: the stored RangeSet and where-clause of [m'] are those
    of [m]. *)
Definition unchanged (m m' : RangeManager) : Prop :=
  ranges m' = ranges m /\ whereOptions m' = whereOptions m.

(** A computation that leaves both fields alone from every state, whether it
    returns or throws. *)
Definition framed {A : Type} (c : M A) : Prop :=
  forall m, unchanged m (final (c m)).

(** The keys of a where-clause that name no header. *)
Definition invalid_columns (hs : Headers) (options : WhereOptions)
  : list string :=
  filter (fun colName =>
            Bool.eqb (includes (header_names hs) (PStr colName)) false)
         (Obj.keys options).

(** The RangeSet [where] builds from the surviving rows. *)
Definition notations (s : Sheet) (rows : list Z) : list RangeNotation :=
  map (fun row => new_RangeNotation (Some row) None None
                                    (Some (getLastColumn s)))
      rows.

(** A header row and two data rows. *)
Definition two_people : Sheet :=
  [ [PStr "name"; PStr "age"];
    [PStr "Alice"; PNum (Fin 28)];
    [PStr "Bob"; PNum (Fin 35)] ].

(** A cell of the grid, rows and columns counted from 0. *)
Definition cell (s : Sheet) (i j : nat) : prim := nth j (nth i s []) blank.

(** What [deserializeRow] builds when no column is requested: every header
    is kept. *)
Definition merged (hs : Headers) (data : Obj.t prim) (currentValues : list prim)
  : Obj.t prim :=
  fold_left
    (fun total entry =>
       let '(idx, colName) := entry in
       if includes (header_names hs) colName
       then Obj.set total (prim_to_string colName)
                    (or_else (prop data colName) (index currentValues (idx - 1)))
       else total)
    hs [].

(** The row [update] writes over one selected row. *)
Definition updated_row (m : RangeManager) (data : Obj.t prim)
  (notation : RangeNotation) : list prim :=
  serializeRow (headers m)
               (merged (headers m) data (first_row_values (sheet m) notation))
               [].

(** Is [k] the property key of some header name? *)
Definition is_header_key (hs : Headers) (k : string) : bool :=
  existsb (fun h => String.eqb (prim_to_string h) k) (header_names hs).

(** [data] without the properties that name no header. *)
Definition known_only (hs : Headers) (data : Obj.t prim) : Obj.t prim :=
  filter (fun e => is_header_key hs (fst e)) data.

(** The row [serializeRow] makes, read back by [deserializeRow] with no
    record of its own and no requested names. *)
Definition roundtrip (hs : Headers) (data : Obj.t prim) (currentRow : list prim)
  : result (Obj.t prim) :=
  deserializeRow hs [] (serializeRow hs data currentRow) [].

(** The positions of a header mapping are 1, 2, ..., N in this order, as
    the [headers] getter makes them. *)
Definition contiguous (hs : Headers) : Prop :=
  map fst hs = map (fun i => Z.of_nat i + 1) (seq 0 (List.length hs)).

(** The value [data[k]] as [prop] reads it, by key. *)
Definition prop_key (data : Obj.t prim) (k : string) : prim :=
  match Obj.get data k with
  | Some v => v
  | None => PUndefined
  end.

(** [keys] with [k] added at the end unless it is there already: how the
    own keys of an object grow under [o[k] = v]. *)
Definition add_key (keys : list string) (k : string) : list string :=
  if existsb (String.eqb k) keys then keys else (keys ++ [k])%list.

(** The distinct elements of [l], each at its first occurrence. *)
Definition first_occurrences (l : list string) : list string :=
  fold_left add_key l [].

(** The names [deserializeRow] answers for: the requested ones, or every
    header name when none is requested. *)
Definition effective_names (hs : Headers) (requested : list string)
  : list string :=
  match requested with
  | [] => map prim_to_string (header_names hs)
  | _ => requested
  end.

(** The test [colNames.includes(colName)] of [deserializeRow], after
    [colNames] has been defaulted. *)
Definition selected (hs : Headers) (requested : list string) (h : prim) : bool :=
  includes (if (List.length requested =? 0)%nat
            then header_names hs
            else map PStr requested) h.

(** The value [deserializeRow] stores under a header name: the record's when
    truthy, else the current row's at the header's position, [undefined]
    when there is none. *)
Definition stored_value (data : Obj.t prim) (currentValues : list prim)
  (idx : Z) (h : prim) : prim :=
  or_else (prop data h) (index currentValues (idx - 1)).

(** The callback of [reduce] in [deserializeRow]. *)
Definition deserialize_step (hs : Headers) (requested : list string)
  (data : Obj.t prim) (currentValues : list prim)
  (total : Obj.t prim) (entry : Z * prim) : Obj.t prim :=
  let '(idx, colName) := entry in
  if selected hs requested colName
  then Obj.set total (prim_to_string colName)
               (stored_value data currentValues idx colName)
  else total.

(** The rows a call of [where] leaves in the RangeSet. *)
Definition selected_rows (o : outcome unit) : list Z :=
  map row (ranges (final o)).

(** The inclusive range test of [between] on a two-element operand. *)
Definition in_range (b1 b2 : value) (actual : prim) : bool :=
  ge actual (PNum (number_min (to_number b1) (to_number b2)))
  && le actual (PNum (number_max (to_number b1) (to_number b2))).

(** [rows] is strictly ascending and above [k]. *)
Fixpoint ascending (k : Z) (rows : list Z) : Prop :=
  match rows with
  | [] => True
  | r :: rest => k < r /\ ascending r rest
  end.

(** The sheet without the rows whose numbers are in [rows], the first row
    of [s] being row [k]. *)
Fixpoint without_rows_from (k : Z) (rows : list Z) (s : Sheet) : Sheet :=
  match s with
  | [] => []
  | x :: rest =>
      if existsb (Z.eqb k) rows
      then without_rows_from (k + 1) rows rest
      else x :: without_rows_from (k + 1) rows rest
  end.

Definition without_rows (rows : list Z) (s : Sheet) : Sheet :=
  without_rows_from 1 rows s.

(** The targets of [deleteRows] when [j] deletions came before. *)
Definition targets_from (j : nat) (rows : list Z) : list Z :=
  map (fun ir => snd ir - Z.of_nat (fst ir))
      (combine (seq j (List.length rows)) rows).

(** No header name is a property name of [Object.prototype]. *)
Definition plain_names (hs : Headers) : Prop :=
  forall h, In h (header_names hs) -> Obj.plain (prim_to_string h) = true.

(** Does [k] read as an array index? *)
Definition is_index (k : string) : bool :=
  match Obj.array_index k with
  | Some _ => true
  | None => false
  end.

(** The numbers of the pairs of [l] are strictly ascending and above
    [bound]. *)
Fixpoint numbered_ascending {A : Type} (bound : Z) (l : list (Z * A)) : Prop :=
  match l with
  | [] => True
  | (n, _) :: rest => bound < n /\ numbered_ascending n rest
  end.

(** The keys [ks] all read as array indices, strictly ascending and above
    [bound]. *)
Fixpoint ascending_indices (bound : Z) (ks : list string) : Prop :=
  match ks with
  | [] => True
  | k :: rest =>
      match Obj.array_index k with
      | Some n => bound < n /\ ascending_indices n rest
      | None => False
      end
  end.

(** ** Vocabulary of the further properties *)

(** Does the cell of [row] pass every method of [column], without a throw? *)
Definition column_passes (s : Sheet) (column : Column) (row : Z) : bool :=
  match row_matches s column row with
  | Ok true => true
  | _ => false
  end.

(** The shape of the LocationDescriptors [where] makes: one full-width row. *)
Definition full_row (s : Sheet) (n : RangeNotation) : Prop :=
  column n = 1 /\ numRows n = 1
  /\ numColumns n = (if getLastColumn s =? 0 then 1 else getLastColumn s).

(** The property keys of the header names are pairwise distinct. *)
Definition distinct_names (hs : Headers) : Prop :=
  NoDup (map prim_to_string (header_names hs)).

(** The requested names that are no header value, in request order. *)
Definition invalid_names (hs : Headers) (requested : list string)
  : list string :=
  filter (fun colName =>
            Bool.eqb (includes (header_names hs) (PStr colName)) false)
         requested.

(** The Unfiltered state: no RangeSet and no stored clause. *)
Definition unfiltered (m : RangeManager) : Prop :=
  ranges m = [] /\ whereOptions m = None.

(** The operators whose answer depends on the cell and the operand only:
    the catalogue without [match] and [matchAny], which call [exec]. *)
Definition stateless_operators : list string :=
  ["equal"; "deepEqual"; "gt"; "gte"; "lt"; "lte"; "includes"; "excludes";
   "between"].

(** The operator/operand pairs [where] compiles for the key [colName] of a
    clause. *)
Definition compiled (options : WhereOptions) (colName : string)
  : list (string * value) :=
  criterion_methods (option_value options colName).

(** Every operator the clause compiles to is a stateless operator of the
    catalogue. *)
Definition stateless_clause (options : WhereOptions) : Prop :=
  forall colName name operand,
    In colName (Obj.keys options) ->
    In (name, operand) (compiled options colName) ->
    In name stateless_operators.

(** The clause [{colName: {name: operand}}]. *)
Definition single_pair (colName name : string) (operand : value)
  : WhereOptions :=
  [(colName, VObj [(name, operand)])].

(** No expression of the list is global or sticky. *)
Definition stateless_regexps (res : list (string * (string -> bool))) : Prop :=
  forall re, In re res -> keeps_lastIndex (fst re) = false.

(** The RegExp objects of given texts and match predicates. *)
Definition regexps (res : list (string * (string -> bool))) : list value :=
  map (fun re => VRegExp (fst re) (snd re)) res.

(** ** The scenarios of the specification *)

(** The sheet of the test suite, its first three data rows. *)
Definition people : Sheet :=
  [ [PStr "name"; PStr "age"; PStr "id"; PStr "is_active"];
    [PStr "Alice"; PNum (Fin 28); PNum (Fin 1); PBool true];
    [PStr "Bob"; PNum (Fin 35); PNum (Fin 2); PBool true];
    [PStr "Charlie"; PNum (Fin 23); PNum (Fin 3); PBool false] ].

Definition people_manager : result RangeManager :=
  from [("TestSheet", people)] "TestSheet".

Example from_TestSheet :
  people_manager = Ok (mkRangeManager people [] None 4)
  /\ from [("TestSheet", people)] "Other" = Err (Error "Sheet Other not found").
Proof. split; reflexivity. Qed.

(** [where({name: 'Bob'}).fetch(['name', 'age'])] *)
Example where_name_Bob_fetch :
  let m := mkRangeManager people [] None 4 in
  bind (where_ [("name", VPrim (PStr "Bob"))])
       (fun _ => fetch ["name"; "age"]) m
  = Return [ [("name", PStr "Bob"); ("age", PNum (Fin 35))] ]
           (mkRangeManager people [mkRangeNotation 3 1 1 4]
                           (Some [("name", VPrim (PStr "Bob"))]) 4).
Proof. reflexivity. Qed.

(** [where({age: {gte: 30}})] keeps Bob's row only. *)
Example where_age_gte_30 :
  let m := mkRangeManager people [] None 4 in
  map row (ranges (final (where_ [("age", VObj [("gte", VPrim (PNum (Fin 30)))])] m)))
  = [3].
Proof. reflexivity. Qed.

(** [append({name: 'Zoe', age: 30})] writes the row after the last one,
    the missing fields blank. *)
Example append_Zoe :
  let m := mkRangeManager people [] None 4 in
  sheet (final (append [("name", PStr "Zoe"); ("age", PNum (Fin 30))] m))
  = (people ++ [ [PStr "Zoe"; PNum (Fin 30); PStr ""; PStr ""] ])%list.
Proof. reflexivity. Qed.

(** [prepend] puts the row first among the data rows. *)
Example prepend_Zoe :
  let m := mkRangeManager two_people [] None 2 in
  sheet (final (prepend [("name", PStr "Zoe")] m))
  = [ [PStr "name"; PStr "age"];
      [PStr "Zoe"; PStr ""];
      [PStr "Alice"; PNum (Fin 28)];
      [PStr "Bob"; PNum (Fin 35)] ].
Proof. reflexivity. Qed.

(** ** The frame of the sheet-only methods *)

Lemma unchanged_refl m : unchanged m m.
Proof. split; reflexivity. Qed.

Lemma unchanged_trans m1 m2 m3 :
  unchanged m1 m2 -> unchanged m2 m3 -> unchanged m1 m3.
Proof. intros [H1 H2] [H3 H4]; split; congruence. Qed.

Lemma framed_ret {A : Type} (a : A) : framed (ret a).
Proof. intro m; apply unchanged_refl. Qed.

Lemma framed_this : framed this.
Proof. intro m; apply unchanged_refl. Qed.

Lemma framed_lift {A : Type} (r : result A) : framed (lift r).
Proof. destruct r; intro m; apply unchanged_refl. Qed.

Lemma framed_set_sheet (f : RangeManager -> Sheet) :
  framed (assign (fun m => set_sheet (f m) m)).
Proof. intro m; split; reflexivity. Qed.

Lemma framed_bind {A B : Type} (c : M A) (k : A -> M B) :
  framed c -> (forall a, framed (k a)) -> framed (bind c k).
Proof.
  intros Hc Hk m. unfold bind.
  specialize (Hc m). destruct (c m) as [a m'|e m']; simpl in *.
  - eapply unchanged_trans; [exact Hc | apply Hk].
  - exact Hc.
Qed.

Lemma framed_forEach {A : Type} (f : A -> M unit) (xs : list A) :
  (forall x, framed (f x)) -> framed (forEach f xs).
Proof.
  intro Hf. induction xs as [|x rest IH]; simpl.
  - apply framed_ret.
  - apply framed_bind; [apply Hf | intros _; exact IH].
Qed.

Lemma framed_if {A : Type} (b : bool) (c1 c2 : M A) :
  framed c1 -> framed c2 -> framed (if b then c1 else c2).
Proof. destruct b; auto. Qed.

Create HintDb frame.
#[local] Hint Resolve framed_ret framed_this framed_lift framed_set_sheet
  : frame.

(** Goes through a method body: binds, loops and branches, down to the
    assignments to [sheet] and to the methods already dealt with. *)
Ltac frame :=
  repeat first
    [ apply framed_bind; [|intro]
    | apply framed_forEach; intro
    | apply framed_if
    | solve [auto with frame] ].

Lemma framed_update_row data notation : framed (update_row data notation).
Proof. unfold update_row. frame. Qed.

#[local] Hint Resolve framed_update_row : frame.

Lemma framed_update data : framed (update data).
Proof. unfold update. frame. Qed.

Lemma framed_deleteRows : framed deleteRows.
Proof. unfold deleteRows. frame. Qed.

Lemma framed_append data : framed (append data).
Proof. unfold append. frame. Qed.

Lemma framed_prepend data : framed (prepend data).
Proof. unfold prepend. frame. Qed.

Lemma framed_fetch colNames : framed (fetch colNames).
Proof. unfold fetch. frame. Qed.

#[local] Hint Resolve framed_update framed_append framed_prepend : frame.

Lemma framed_updateOrAppend data : framed (updateOrAppend data).
Proof. unfold updateOrAppend. frame. Qed.

Lemma framed_updateOrPrepend data : framed (updateOrPrepend data).
Proof. unfold updateOrPrepend. frame. Qed.

(** C10.  [fetch], [update], [deleteRows], [append] and [prepend] (and the
    two dispatchers built from them) leave the stored RangeSet [ranges] and
    the stored where-clause [whereOptions] as they found them, from every
    state of the manager and whether the call returns or throws. *)
Theorem sheet_methods_keep_ranges_and_whereOptions :
  forall (m : RangeManager) (data : Obj.t prim) (colNames : list string),
    unchanged m (final (fetch colNames m))
    /\ unchanged m (final (update data m))
    /\ unchanged m (final (deleteRows m))
    /\ unchanged m (final (append data m))
    /\ unchanged m (final (prepend data m))
    /\ unchanged m (final (updateOrAppend data m))
    /\ unchanged m (final (updateOrPrepend data m)).
Proof.
  intros m data colNames.
  exact (conj (framed_fetch colNames m)
        (conj (framed_update data m)
        (conj (framed_deleteRows m)
        (conj (framed_append data m)
        (conj (framed_prepend data m)
        (conj (framed_updateOrAppend data m)
              (framed_updateOrPrepend data m))))))).
Qed.

(** The other three methods are the ones that replace the two fields. *)
Example where_refresh_clear_replace :
  let m := mkRangeManager [ [PStr "name"]; [PStr "Bob"] ] [] None 1 in
  let filtered := final (where_ [("name", VPrim (PStr "Bob"))] m) in
  map row (ranges filtered) = [2]
  /\ whereOptions filtered = Some [("name", VPrim (PStr "Bob"))]
  /\ map row (ranges (final (refresh (set_ranges [] filtered)))) = [2]
  /\ ranges (final (clear filtered)) = []
  /\ whereOptions (final (clear filtered)) = None.
Proof. repeat split. Qed.

(** ** [deleteRows] *)

Lemma forEach_assign (f : Sheet -> Z -> Sheet) (targets : list Z) m :
  forEach (fun target => m <- this ;; assign (set_sheet (f (sheet m) target)))
          targets m
  = Return tt (set_sheet (fold_left f targets (sheet m)) m).
Proof.
  revert m. induction targets as [|t rest IH]; intro m; simpl.
  - destruct m; reflexivity.
  - unfold bind at 1. unfold bind at 1. simpl. rewrite IH.
    destruct m; reflexivity.
Qed.

Lemma delete_targets_shift (k : nat) (rs : list RangeNotation) :
  forall n r,
    nth_error rs n = Some r ->
    nth_error (map (fun ir => snd ir - Z.of_nat (fst ir))
                   (combine (seq k (List.length rs)) (map row rs))) n
    = Some (row r - Z.of_nat (k + n)).
Proof.
  revert k. induction rs as [|r0 rest IH]; intros k n r Hn.
  - destruct n; discriminate.
  - destruct n as [|n]; simpl in *.
    + injection Hn as <-. rewrite Nat.add_0_r. reflexivity.
    + rewrite (IH (S k) n r Hn). do 3 f_equal. lia.
Qed.

Lemma deleteRow_nil (t : Z) : deleteRow [] t = [].
Proof.
  unfold deleteRow. destruct (1 <=? t); [|reflexivity].
  rewrite firstn_nil, skipn_nil. reflexivity.
Qed.

Lemma deleteRow_cons (x : list prim) (rest : Sheet) (t : Z) :
  1 <= t ->
  deleteRow (x :: rest) t
  = if t =? 1 then rest else x :: deleteRow rest (t - 1).
Proof.
  intro Ht. unfold deleteRow.
  destruct (Z.leb_spec 1 t); [|lia].
  destruct (Z.eqb_spec t 1) as [->|Hne].
  - reflexivity.
  - destruct (Z.leb_spec 1 (t - 1)); [|lia].
    replace (Z.to_nat (t - 1)) with (S (Z.to_nat (t - 1 - 1))) by lia.
    replace (Z.to_nat t) with (S (S (Z.to_nat (t - 1 - 1)))) by lia.
    reflexivity.
Qed.

Lemma existsb_eqb_false (k : Z) (rows : list Z) :
  (forall r, In r rows -> r <> k) -> existsb (Z.eqb k) rows = false.
Proof.
  intro H. induction rows as [|r rest IH]; simpl; [reflexivity|].
  destruct (Z.eqb_spec k r) as [->|_].
  - exfalso. apply (H r); [left|]; reflexivity.
  - apply IH. intros r' Hr'. apply H. right. exact Hr'.
Qed.

Lemma without_rows_shift (rows : list Z) (s : Sheet) :
  forall k,
    without_rows_from k rows s
    = without_rows_from (k + 1) (map Z.succ rows) s.
Proof.
  induction s as [|x rest IH]; intro k; simpl; [reflexivity|].
  rewrite <- IH.
  replace (existsb (Z.eqb (k + 1)) (map Z.succ rows))
    with (existsb (Z.eqb k) rows); [reflexivity|].
  clear. induction rows as [|r rows IH]; simpl; [reflexivity|].
  rewrite IH. f_equal.
  destruct (Z.eqb_spec k r), (Z.eqb_spec (k + 1) (Z.succ r)); try lia;
    reflexivity.
Qed.

Lemma without_rows_passed (t : Z) (rows : list Z) (s : Sheet) :
  forall k,
    t < k ->
    without_rows_from k (t :: rows) s = without_rows_from k rows s.
Proof.
  induction s as [|x rest IH]; intros k Hk; simpl; [reflexivity|].
  rewrite (IH (k + 1)) by lia.
  destruct (Z.eqb_spec k t); [lia|]. reflexivity.
Qed.

Lemma without_rows_deleteRow (rows : list Z) (t : Z) (s : Sheet) :
  forall k,
    k <= t ->
    (forall q, In q rows -> t <= q) ->
    without_rows_from k rows (deleteRow s (t - k + 1))
    = without_rows_from k (t :: map Z.succ rows) s.
Proof.
  induction s as [|x rest IH]; intros k Hk Hrows.
  - rewrite deleteRow_nil. reflexivity.
  - rewrite deleteRow_cons by lia.
    destruct (Z.eqb_spec (t - k + 1) 1) as [E|E].
    + assert (t = k) by lia. subst t.
      cbn [without_rows_from existsb]. rewrite Z.eqb_refl. cbn [orb].
      rewrite without_rows_passed by lia. apply without_rows_shift.
    + cbn [without_rows_from existsb].
      rewrite (existsb_eqb_false k rows)
        by (intros q Hq; specialize (Hrows q Hq); lia).
      destruct (Z.eqb_spec k t); [lia|]. cbn [orb].
      rewrite (existsb_eqb_false k (map Z.succ rows)).
      * f_equal. replace (t - k + 1 - 1) with (t - (k + 1) + 1) by lia.
        apply IH; [lia | exact Hrows].
      * intros q Hq. apply in_map_iff in Hq. destruct Hq as [q' [<- Hq']].
        specialize (Hrows q' Hq'). lia.
Qed.

Lemma ascending_lower (k k' : Z) (rows : list Z) :
  k' <= k -> ascending k rows -> ascending k' rows.
Proof. destruct rows; simpl; [tauto|]. intros Hk [H1 H2]. split; [lia|exact H2]. Qed.

Lemma ascending_In (k : Z) (rows : list Z) :
  ascending k rows -> forall r, In r rows -> k < r.
Proof.
  revert k. induction rows as [|r0 rest IH]; intros k H r Hr; simpl in *.
  - contradiction.
  - destruct H as [H1 H2]. destruct Hr as [<-|Hr]; [exact H1|].
    specialize (IH r0 H2 r Hr). lia.
Qed.

Lemma fold_deleteRow_targets (rows : list Z) :
  forall (j : nat) (s : Sheet),
    ascending (Z.of_nat j) rows ->
    fold_left deleteRow (targets_from j rows) s
    = without_rows (map (fun r => r - Z.of_nat j) rows) s.
Proof.
  induction rows as [|r rest IH]; intros j s Hasc.
  - simpl. unfold without_rows. clear.
    generalize 1. induction s as [|x rest IH]; intro k; simpl; [reflexivity|].
    rewrite <- IH. reflexivity.
  - destruct Hasc as [Hr Hrest].
    unfold targets_from. cbn [List.length seq combine map fold_left fst snd].
    fold (targets_from (S j) rest).
    rewrite IH by (apply (ascending_lower r); [lia | exact Hrest]).
    unfold without_rows.
    replace (r - Z.of_nat j) with (r - Z.of_nat j - 1 + 1) at 1 by lia.
    rewrite without_rows_deleteRow.
    + rewrite map_map. f_equal. f_equal. apply map_ext. intro q. lia.
    + lia.
    + intros q Hq. apply in_map_iff in Hq. destruct Hq as [q' [<- Hq']].
      pose proof (ascending_In r rest Hrest q' Hq'). lia.
Qed.

(** C6.  [deleteRows] asks the sheet for one deletion per LocationDescriptor,
    in RangeSet order, the deletion at position [n] (counted from 0, so the
    (n+1)-th) aiming at that descriptor's row minus [n]; the deletions are
    applied to the sheet one after the other, and nothing else changes.  On
    an empty RangeSet there is no deletion and the manager is as before.
    When the rows named are r1 < r2 < ... < rk, all from row 1 on, the
    subtraction makes up for the rows already gone: the sheet left is the
    sheet before the call without its rows r1, ..., rk. *)
Theorem deleteRows_targets :
  forall m : RangeManager,
    deleteRows m
    = Return tt (set_sheet (fold_left deleteRow (delete_targets (ranges m))
                                      (sheet m)) m)
    /\ List.length (delete_targets (ranges m)) = List.length (ranges m)
    /\ (forall n r, nth_error (ranges m) n = Some r ->
                    nth_error (delete_targets (ranges m)) n
                    = Some (row r - Z.of_nat n))
    /\ (ranges m = [] -> deleteRows m = Return tt m)
    /\ (ascending 0 (map row (ranges m)) ->
        sheet (final (deleteRows m))
        = without_rows (map row (ranges m)) (sheet m)).
Proof.
  intro m.
  assert (Hrun : deleteRows m
                 = Return tt (set_sheet
                                (fold_left deleteRow (delete_targets (ranges m))
                                           (sheet m)) m)).
  { unfold deleteRows, bind at 1, this.
    destruct (ranges m) as [|r rest] eqn:E.
    - simpl. destruct m; simpl in *; subst; reflexivity.
    - replace (0 <? List.length (r :: rest))%nat with true by reflexivity.
      apply forEach_assign. }
  split; [exact Hrun|]. split; [|split; [|split]].
  - unfold delete_targets.
    rewrite length_map, length_combine, length_seq, length_map.
    apply Nat.min_id.
  - intros n r Hn. unfold delete_targets.
    rewrite (delete_targets_shift 0 (ranges m) n r Hn). reflexivity.
  - intro E. unfold deleteRows, bind, this. rewrite E. reflexivity.
  - intro Hasc. rewrite Hrun. cbn [final sheet set_sheet].
    replace (delete_targets (ranges m))
      with (targets_from 0 (map row (ranges m)))
      by (unfold targets_from, delete_targets; rewrite length_map; reflexivity).
    rewrite (fold_deleteRow_targets _ 0 _ Hasc).
    f_equal. rewrite <- (map_id (map row (ranges m))) at 2.
    apply map_ext. intro r. simpl. lia.
Qed.

Lemma deleteRows_targets_witness :
  let names := [ [PStr "name"]; [PStr "Alice"]; [PStr "Bob"];
                 [PStr "Charlie"] ] in
  let m := mkRangeManager names
             [mkRangeNotation 2 1 1 1; mkRangeNotation 4 1 1 1] None 1 in
  ascending 0 (map row (ranges m))
  /\ sheet (final (deleteRows m)) = [ [PStr "name"]; [PStr "Bob"] ].
Proof.
  assert (Hasc : ascending 0 [2; 4]) by (simpl; lia).
  split; [exact Hasc|].
  exact (proj2 (proj2 (proj2 (proj2
           (deleteRows_targets
              (mkRangeManager
                 [ [PStr "name"]; [PStr "Alice"]; [PStr "Bob"];
                   [PStr "Charlie"] ]
                 [mkRangeNotation 2 1 1 1; mkRangeNotation 4 1 1 1]
                 None 1))))) Hasc).
Defined.

(** Deleting through a RangeSet with rows 2 and 4 removes what were rows 2
    and 4 of the sheet: the second deletion aims at row 3. *)
Example deleteRows_two_rows :
  let people := [ [PStr "name"]; [PStr "Alice"]; [PStr "Bob"];
                  [PStr "Charlie"] ] in
  let m := mkRangeManager people
             [mkRangeNotation 2 1 1 1; mkRangeNotation 4 1 1 1] None 1 in
  delete_targets (ranges m) = [2; 3]
  /\ sheet (final (deleteRows m)) = [ [PStr "name"]; [PStr "Bob"] ].
Proof. split; reflexivity. Qed.

(** ** [where] *)

(** [where] step by step: the clause is stored first; then either the
    unknown-column error, or an error from compiling or scanning, or the new
    RangeSet. *)
Lemma where_unfold (options : WhereOptions) (m : RangeManager) :
  where_ options m
  = let stored := set_whereOptions (Some options) m in
    if (0 <? List.length (invalid_columns (headers m) options))%nat
    then Throw (Error (invalid_message (invalid_columns (headers m) options)))
               stored
    else
      match map_result (compile_column (headers m) options)
                       (Obj.keys options) with
      | Err e => Throw e stored
      | Ok cols =>
          match reduce_result
                  (fun rows column =>
                     filter_result (row_matches (sheet m) column) rows)
                  cols (candidate_rows (getLastRow (sheet m))) with
          | Err e => Throw e stored
          | Ok rows => Return tt (set_ranges (notations (sheet m) rows) stored)
          end
      end.
Proof.
  unfold where_, bind, assign, this, invalid_columns, notations. simpl.
  change (headers (set_whereOptions (Some options) m)) with (headers m).
  destruct (0 <? _)%nat; [reflexivity|].
  destruct (map_result _ _) as [cols|e]; [|reflexivity]. simpl.
  destruct (reduce_result _ _ _) as [rows|e]; reflexivity.
Qed.

Lemma includes_In (xs : list prim) (k : string) :
  includes xs (PStr k) = true <-> In (PStr k) xs.
Proof.
  unfold includes. rewrite existsb_exists. split.
  - intros [y [Hy Heq]]. destruct y as [| |b|n|s]; simpl in Heq;
      try discriminate.
    apply String.eqb_eq in Heq. subst. exact Hy.
  - intro H. exists (PStr k). split; [exact H|]. simpl. apply String.eqb_refl.
Qed.

Lemma invalid_columns_spec (hs : Headers) (options : WhereOptions) (k : string) :
  In k (invalid_columns hs options)
  <-> In k (Obj.keys options) /\ ~ In (PStr k) (header_names hs).
Proof.
  unfold invalid_columns. rewrite filter_In, <- includes_In.
  destruct (includes (header_names hs) (PStr k)); simpl; intuition congruence.
Qed.

(** [where({})]: every candidate row is kept, whatever the cells hold. *)
Lemma where_empty (m : RangeManager) :
  where_ [] m
  = Return tt (set_ranges
                 (notations (sheet m) (candidate_rows (getLastRow (sheet m))))
                 (set_whereOptions (Some []) m)).
Proof. rewrite where_unfold. reflexivity. Qed.

Lemma candidate_rows_spec (n : Z) (r : Z) :
  In r (candidate_rows n) <-> firstRowNumber <= r < firstRowNumber + n.
Proof.
  unfold candidate_rows. rewrite in_map_iff. split.
  - intros [i [<- Hi]]. apply in_seq in Hi. lia.
  - intro H. exists (Z.to_nat (r - firstRowNumber)). split; [lia|].
    apply in_seq. lia.
Qed.

Lemma row_notations (s : Sheet) (rows : list Z) :
  (forall r, In r rows -> r <> 0) -> map row (notations s rows) = rows.
Proof.
  intro H. unfold notations. rewrite map_map.
  rewrite <- (map_id rows) at 2. apply map_ext_in.
  intros r Hr. cbn [new_RangeNotation row or_one].
  destruct (Z.eqb_spec r 0); [exfalso; apply (H r Hr); assumption|reflexivity].
Qed.

(** C1.  [where({})] returns with one LocationDescriptor per candidate row,
    in ascending order and whatever the cells hold; but the candidate rows
    are [getLastRow()] rows counted from row 2, so they run to row
    [getLastRow() + 1].  On a table whose last populated row is 3 (a header
    and the data rows 2 and 3) the RangeSet is made of rows 2, 3 and 4: row 4
    lies beyond the last populated row. *)
Theorem where_empty_selects_row_past_last :
  (forall m : RangeManager,
      thrown (where_ [] m) = None
      /\ selected_rows (where_ [] m) = candidate_rows (getLastRow (sheet m))
      /\ forall r, In r (selected_rows (where_ [] m))
                   <-> 2 <= r <= getLastRow (sheet m) + 1)
  /\ let m := mkRangeManager two_people [] None 2 in
     getLastRow (sheet m) = 3
     /\ where_ [] m
        = Return tt (mkRangeManager two_people
                       [ mkRangeNotation 2 1 1 2;
                         mkRangeNotation 3 1 1 2;
                         mkRangeNotation 4 1 1 2 ]
                       (Some []) 2).
Proof.
  split; [|split; reflexivity].
  intro m. rewrite where_empty.
  assert (Hrows : selected_rows
                    (Return tt
                       (set_ranges
                          (notations (sheet m)
                                     (candidate_rows (getLastRow (sheet m))))
                          (set_whereOptions (Some []) m)))
                  = candidate_rows (getLastRow (sheet m))).
  { unfold selected_rows. cbn [final ranges set_ranges].
    apply row_notations. intros r Hr.
    apply candidate_rows_spec in Hr. unfold firstRowNumber in Hr. lia. }
  split; [reflexivity|]. split; [exact Hrows|].
  intro r. rewrite Hrows, candidate_rows_spec. unfold firstRowNumber. lia.
Qed.

(** What follows from it downstream: after [where({})] on that table,
    [update] also writes row 4, which held nothing. *)
Example where_empty_then_update_fills_row_past_last :
  let m := mkRangeManager two_people [] None 2 in
  let data : Obj.t prim := [("name", PStr "Zoe")] in
  sheet (final (bind (where_ []) (fun _ => update data) m))
  = [ [PStr "name"; PStr "age"];
      [PStr "Zoe"; PNum (Fin 28)];
      [PStr "Zoe"; PNum (Fin 35)];
      [PStr "Zoe"; PStr ""] ].
Proof. reflexivity. Qed.

(** C2 as stated fails: after the throw the stored where-clause is the
    rejected clause, not the one stored before the call. *)
Lemma where_unknown_column_overwrites_whereOptions :
  let m := mkRangeManager two_people [] None 2 in
  let options : WhereOptions := [("salary", VPrim (PNum (Fin 1)))] in
  In "salary" (Obj.keys options)
  /\ ~ In (PStr "salary") (header_names (headers m))
  /\ thrown (where_ options m)
     = Some (Error "[ERROR] Invalid col name(s) found: salary")
  /\ whereOptions (final (where_ options m)) <> whereOptions m.
Proof.
  repeat split.
  - left; reflexivity.
  - intro H. simpl in H.
    repeat (destruct H as [H|H]; [discriminate H|]). exact H.
  - discriminate.
Qed.

(** C2, amended.  When a where-clause has at least one key that is no header
    name, [where] throws the unknown-column error whose message lists exactly
    the keys that are no header names, in key order; the sheet and the stored
    RangeSet are as before the call, and the stored where-clause is the
    clause just passed. *)
Theorem where_unknown_column :
  forall (m : RangeManager) (options : WhereOptions) (k : string),
    In k (Obj.keys options) ->
    ~ In (PStr k) (header_names (headers m)) ->
    where_ options m
    = Throw (Error ("[ERROR] Invalid col name(s) found: "
                    ++ join "," (invalid_columns (headers m) options)))
            (mkRangeManager (sheet m) (ranges m) (Some options)
                            (lastColumnNumber m))
    /\ (forall k', In k' (invalid_columns (headers m) options)
                   <-> In k' (Obj.keys options)
                       /\ ~ In (PStr k') (header_names (headers m))).
Proof.
  intros m options k Hk Hnot. split.
  - rewrite where_unfold. cbv zeta.
    assert (Hin : In k (invalid_columns (headers m) options))
      by (apply invalid_columns_spec; split; assumption).
    destruct (invalid_columns (headers m) options) as [|x rest];
      [contradiction|].
    reflexivity.
  - intro k'. apply invalid_columns_spec.
Qed.

Lemma where_unknown_column_witness :
  let m := mkRangeManager two_people [] None 2 in
  let options : WhereOptions :=
    [("salary", VPrim (PNum (Fin 1))); ("name", VPrim (PStr "Bob"));
     ("7", VPrim PNull)] in
  where_ options m
  = Throw (Error "[ERROR] Invalid col name(s) found: 7,salary")
          (mkRangeManager two_people [] (Some options) 2).
Proof.
  refine (proj1 (where_unknown_column
                   (mkRangeManager two_people [] None 2) _ "salary" _ _)).
  - vm_compute. tauto.
  - vm_compute. intuition discriminate.
Defined.

(** ** Reading the sheet after a write *)

Lemma nth_tabulate {A : Type} (f : nat -> A) (n i : nat) (d : A) :
  nth i (map f (seq 0 n)) d = if (i <? n)%nat then f i else d.
Proof.
  destruct (Nat.ltb_spec i n) as [Hlt|Hge].
  - rewrite (nth_indep _ d (f 0%nat)) by (rewrite length_map, length_seq; exact Hlt).
    rewrite map_nth, seq_nth by exact Hlt. reflexivity.
  - apply nth_overflow. rewrite length_map, length_seq. exact Hge.
Qed.

Lemma nth_nil_blank (j : nat) : nth j (@nil prim) blank = blank.
Proof. destruct j; reflexivity. Qed.

Lemma nth_write_row (c0 : nat) (new old : list prim) (j : nat) :
  nth j (write_row c0 new old) blank
  = if (c0 <=? j)%nat && (j <? c0 + List.length new)%nat
    then nth (j - c0) new blank
    else nth j old blank.
Proof.
  unfold write_row. rewrite nth_tabulate.
  destruct (Nat.ltb_spec j (Nat.max (List.length old) (c0 + List.length new)))
    as [Hlt|Hge]; [reflexivity|].
  destruct (Nat.leb_spec c0 j), (Nat.ltb_spec j (c0 + List.length new));
    simpl; try lia.
  all: symmetry; apply nth_overflow; lia.
Qed.

Lemma getValue_cell (s : Sheet) (r c : Z) :
  1 <= r -> 1 <= c ->
  getValue s r c = cell s (Z.to_nat (r - 1)) (Z.to_nat (c - 1)).
Proof.
  intros Hr Hc. unfold getValue, cell.
  destruct (Z.leb_spec 1 r), (Z.leb_spec 1 c); try lia. reflexivity.
Qed.

Lemma getValue_outside (s : Sheet) (r c : Z) :
  r < 1 \/ c < 1 -> getValue s r c = blank.
Proof.
  intro H. unfold getValue.
  destruct (Z.leb_spec 1 r), (Z.leb_spec 1 c); try lia; reflexivity.
Qed.

(** After a one-row write at [(row, column)], the cells under the written
    values read as those values and every other cell reads as before. *)
Lemma getValue_setValues_row (s : Sheet) (row column : Z) (vals : list prim)
  (r c : Z) :
  getValue (setValues s row column [vals]) r c
  = if (1 <=? row) && (1 <=? column) && (r =? row) && (column <=? c)
       && (c <? column + Z.of_nat (List.length vals))
    then nth (Z.to_nat (c - column)) vals blank
    else getValue s r c.
Proof.
  unfold setValues.
  destruct (Z.leb_spec 1 row) as [Hrow|Hrow]; [|reflexivity].
  destruct (Z.leb_spec 1 column) as [Hcol|Hcol]; [|reflexivity].
  cbn [andb].
  destruct (Z_lt_le_dec r 1) as [Hr|Hr].
  { rewrite !getValue_outside by (left; exact Hr).
    destruct (Z.eqb_spec r row); [lia|]. reflexivity. }
  destruct (Z_lt_le_dec c 1) as [Hc|Hc].
  { rewrite !getValue_outside by (right; exact Hc).
    destruct (Z.eqb_spec r row); [|reflexivity].
    destruct (Z.leb_spec column c); [lia|]. reflexivity. }
  rewrite !getValue_cell by assumption. unfold cell.
  rewrite nth_tabulate. cbn [List.length].
  set (i := Z.to_nat (r - 1)). set (j := Z.to_nat (c - 1)).
  set (r0 := Z.to_nat (row - 1)). set (c0 := Z.to_nat (column - 1)).
  destruct (Nat.ltb_spec i (Nat.max (List.length s) (r0 + 1))) as [Hi|Hi].
  - destruct (Z.eqb_spec r row) as [->|Hne].
    + replace ((r0 <=? i)%nat && (i <? r0 + 1)%nat) with true
        by (subst i r0; symmetry; apply andb_true_intro; split;
            [apply Nat.leb_le | apply Nat.ltb_lt]; lia).
      replace (i - r0)%nat with 0%nat by (subst i r0; lia).
      cbn [nth]. rewrite nth_write_row.
      destruct (Z.leb_spec column c), (Nat.leb_spec c0 j);
        try (subst j c0; lia); cbn [andb]; [|reflexivity].
      destruct (Z.ltb_spec c (column + Z.of_nat (List.length vals))),
               (Nat.ltb_spec j (c0 + List.length vals));
        try (subst j c0; lia); [|reflexivity].
      f_equal. subst j c0. lia.
    + replace ((r0 <=? i)%nat && (i <? r0 + 1)%nat) with false; [reflexivity|].
      symmetry. apply andb_false_iff.
      destruct (Nat.leb_spec r0 i); [right|left; reflexivity].
      apply Nat.ltb_ge. subst i r0. lia.
  - rewrite nth_nil_blank.
    destruct (Z.eqb_spec r row) as [->|Hne]; [subst i r0; lia|].
    rewrite (nth_overflow s) by lia. rewrite nth_nil_blank. reflexivity.
Qed.

(** ** [update], [append] and [updateOrAppend] *)

Lemma deserializeRow_all (hs : Headers) data currentValues :
  deserializeRow hs data currentValues [] = Ok (merged hs data currentValues).
Proof. reflexivity. Qed.

Lemma update_row_returns data notation m :
  update_row data notation m
  = Return tt (set_sheet (setValues (sheet m) (row notation) (column notation)
                                    [updated_row m data notation]) m).
Proof. reflexivity. Qed.

Lemma forEach_update_row_returns data (rs : list RangeNotation) :
  forall m, exists m', forEach (update_row data) rs m = Return tt m'.
Proof.
  induction rs as [|n rest IH]; intro m; simpl.
  - exists m. reflexivity.
  - unfold bind. rewrite update_row_returns. apply IH.
Qed.

(** [update] always returns: nothing in it can throw. *)
Lemma update_returns data m : exists m', update data m = Return tt m'.
Proof.
  unfold update, bind, this.
  destruct (0 <? List.length (ranges m))%nat.
  - apply forEach_update_row_returns.
  - exists m. reflexivity.
Qed.

Lemma forEach_update_row_other_rows data (r c : Z) (rs : list RangeNotation) :
  forall m,
    (forall n, In n rs -> row n <> r) ->
    getValue (sheet (final (forEach (update_row data) rs m))) r c
    = getValue (sheet m) r c.
Proof.
  induction rs as [|n rest IH]; intros m Hrows; simpl.
  - reflexivity.
  - unfold bind. rewrite update_row_returns.
    rewrite IH by (intros n' Hn'; apply Hrows; right; exact Hn').
    cbn [sheet set_sheet]. rewrite getValue_setValues_row.
    destruct (Z.eqb_spec r (row n)) as [E|_].
    + exfalso. apply (Hrows n); [left; reflexivity | congruence].
    + rewrite !andb_false_r. reflexivity.
Qed.

Lemma map_nth_seq (vals : list prim) (f : nat -> prim) :
  (forall j, (j < List.length vals)%nat -> f j = nth j vals blank) ->
  map f (seq 0 (List.length vals)) = vals.
Proof.
  intro Hf. apply (nth_ext _ _ blank blank).
  - rewrite length_map, length_seq. reflexivity.
  - intros j Hj. rewrite length_map, length_seq in Hj.
    rewrite nth_tabulate.
    destruct (Nat.ltb_spec j (List.length vals)); [apply Hf; lia | lia].
Qed.

Lemma last_position_nonneg (s : Sheet) : 0 <= getLastRow s.
Proof. unfold getLastRow. lia. Qed.

Lemma last_position_le {X : Type} (empty : X -> bool) (d : X) (l : list X) :
  forall n,
    (forall i, (n <= i)%nat -> (i < List.length l)%nat ->
               empty (nth i l d) = true) ->
    (last_position empty l <= n)%nat.
Proof.
  induction l as [|x rest IH]; intros n H; simpl.
  - lia.
  - destruct n as [|n].
    + assert (Hrest : (last_position empty rest <= 0)%nat).
      { apply IH. intros i _ Hi. apply (H (S i)); simpl; lia. }
      destruct (last_position empty rest); [|lia].
      pose proof (H 0%nat ltac:(lia) ltac:(simpl; lia)) as H0.
      simpl in H0. rewrite H0. lia.
    + assert (Hrest : (last_position empty rest <= n)%nat).
      { apply IH. intros i Hn Hi. apply (H (S i)); simpl; lia. }
      destruct (last_position empty rest); [destruct (empty x)|]; lia.
Qed.

Lemma last_position_empty {X : Type} (empty : X -> bool) (d : X) (l : list X) :
  forall i,
    (last_position empty l <= i)%nat -> (i < List.length l)%nat ->
    empty (nth i l d) = true.
Proof.
  induction l as [|x rest IH]; intros i Hle Hi; simpl in *.
  - lia.
  - destruct (last_position empty rest) as [|k] eqn:E.
    + destruct i as [|i].
      * destruct (empty x); [reflexivity | lia].
      * apply IH; lia.
    + destruct i as [|i]; [lia|]. apply IH; lia.
Qed.

(** A cell beyond the last populated row is blank. *)
Lemma getValue_past_last (s : Sheet) (r c : Z) :
  getLastRow s < r -> is_blank (getValue s r c) = true.
Proof.
  intro Hr. unfold getLastRow in Hr.
  destruct (Z_lt_le_dec c 1) as [Hc|Hc].
  { rewrite getValue_outside by (right; exact Hc). reflexivity. }
  rewrite getValue_cell by lia. unfold cell.
  destruct (Nat.lt_ge_cases (Z.to_nat (r - 1)) (List.length s)) as [Hi|Hi].
  - pose proof (last_position_empty (forallb is_blank) [] s
                  (Z.to_nat (r - 1)) ltac:(lia) Hi) as Hrow.
    destruct (Nat.lt_ge_cases (Z.to_nat (c - 1))
                (List.length (nth (Z.to_nat (r - 1)) s []))) as [Hj|Hj].
    + rewrite forallb_forall in Hrow. apply Hrow. apply nth_In. exact Hj.
    + rewrite nth_overflow by exact Hj. reflexivity.
  - rewrite (nth_overflow s) by exact Hi. rewrite nth_nil_blank. reflexivity.
Qed.

(** A sheet whose cells below row [n] are all blank has its last populated
    row at [n] or above it. *)
Lemma getLastRow_le (s : Sheet) (n : Z) :
  0 <= n ->
  (forall r c, n < r -> is_blank (getValue s r c) = true) ->
  getLastRow s <= n.
Proof.
  intros Hn H. unfold getLastRow.
  assert (Hle : (last_position (forallb is_blank) s <= Z.to_nat n)%nat).
  { apply (last_position_le _ []). intros i Hi Hlen.
    apply forallb_forall. intros x Hx.
    destruct (In_nth _ _ blank Hx) as [j [Hj <-]].
    specialize (H (Z.of_nat i + 1) (Z.of_nat j + 1) ltac:(lia)).
    rewrite getValue_cell in H by lia. unfold cell in H.
    replace (Z.to_nat (Z.of_nat i + 1 - 1)) with i in H by lia.
    replace (Z.to_nat (Z.of_nat j + 1 - 1)) with j in H by lia.
    exact H. }
  lia.
Qed.

(** The two branches of [updateOrAppend(record)].  On an empty RangeSet it
    makes one write: the row [serializeRow(headers, record)], with no current
    values, laid from column 1 of the row just after the last populated one;
    that row then reads as the serialized record and no other row of the
    sheet changes.  On a non-empty RangeSet it is [update(record)], which
    returns and changes no cell outside the rows the RangeSet names; when
    those rows are rows of the table, the last populated row does not move
    down. *)
Lemma updateOrAppend_spec :
  forall (m : RangeManager) (data : Obj.t prim),
    let new_row := serializeRow (headers m) data [] in
    let at_row := getLastRow (sheet m) + 1 in
    (ranges m = [] ->
     exists written,
       updateOrAppend data m = Return tt (set_sheet written m)
       /\ written = setValues (sheet m) at_row 1 [new_row]
       /\ getValues written at_row 1 1 (Z.of_nat (List.length new_row))
          = [new_row]
       /\ forall r c, r <> at_row -> getValue written r c = getValue (sheet m) r c)
    /\ (ranges m <> [] ->
        updateOrAppend data m = update data m
        /\ (exists m', update data m = Return tt m')
        /\ (forall r c,
               (forall n, In n (ranges m) -> row n <> r) ->
               getValue (sheet (final (update data m))) r c
               = getValue (sheet m) r c)
        /\ ((forall n, In n (ranges m) -> row n <= getLastRow (sheet m)) ->
            getLastRow (sheet (final (update data m))) <= getLastRow (sheet m))).
Proof.
  intros m data new_row at_row.
  pose proof (last_position_nonneg (sheet m)) as Hlast.
  split.
  - intro Hempty.
    exists (setValues (sheet m) at_row 1 [new_row]).
    split; [|split; [reflexivity|split]].
    + unfold updateOrAppend, bind, this. rewrite Hempty. reflexivity.
    + unfold getValues. rewrite Nat2Z.id.
      change (Z.to_nat 1) with 1%nat. cbn [seq map]. f_equal.
      apply map_nth_seq. intros j Hj.
      rewrite getValue_setValues_row.
      replace (1 <=? at_row) with true by (symmetry; apply Z.leb_le; lia).
      replace (at_row + Z.of_nat 0 =? at_row) with true
        by (symmetry; apply Z.eqb_eq; lia).
      replace (1 <=? 1 + Z.of_nat j) with true by (symmetry; apply Z.leb_le; lia).
      replace (1 + Z.of_nat j <? 1 + Z.of_nat (List.length new_row)) with true
        by (symmetry; apply Z.ltb_lt; lia).
      cbn [andb Z.leb Z.compare Pos.compare Pos.compare_cont].
      f_equal. lia.
    + intros r c Hr. rewrite getValue_setValues_row.
      destruct (Z.eqb_spec r at_row); [contradiction|].
      rewrite !andb_false_r. reflexivity.
  - intro Hnonempty.
    assert (Hlen : (0 <? List.length (ranges m))%nat = true)
      by (destruct (ranges m); [contradiction | reflexivity]).
    assert (Hother : forall r c,
               (forall n, In n (ranges m) -> row n <> r) ->
               getValue (sheet (final (update data m))) r c
               = getValue (sheet m) r c).
    { intros r c Hrows. unfold update, bind, this. rewrite Hlen.
      apply forEach_update_row_other_rows. exact Hrows. }
    split; [|split; [|split]].
    + unfold updateOrAppend, bind, this. rewrite Hlen. reflexivity.
    + apply update_returns.
    + exact Hother.
    + intro Hexisting. apply getLastRow_le; [exact Hlast|].
      intros r c Hr. rewrite Hother.
      * apply getValue_past_last. exact Hr.
      * intros n Hn Heq. specialize (Hexisting n Hn). lia.
Qed.

Lemma updateOrAppend_spec_witness :
  let unfiltered := mkRangeManager two_people [] None 2 in
  let filtered := mkRangeManager two_people [mkRangeNotation 3 1 1 2] None 2 in
  let data : Obj.t prim := [("name", PStr "Zoe")] in
  (exists written,
      updateOrAppend data unfiltered = Return tt (set_sheet written unfiltered)
      /\ getValues written 4 1 1 2 = [ [PStr "Zoe"; PStr ""] ])
  /\ updateOrAppend data filtered = update data filtered
  /\ getLastRow (sheet (final (update data filtered))) <= 3.
Proof.
  pose proof (updateOrAppend_spec
                (mkRangeManager two_people [] None 2)
                [("name", PStr "Zoe")]) as Hempty.
  pose proof (updateOrAppend_spec
                (mkRangeManager two_people [mkRangeNotation 3 1 1 2] None 2)
                [("name", PStr "Zoe")]) as Hfiltered.
  cbv zeta in Hempty, Hfiltered.
  destruct Hempty as [Hempty _]. destruct Hfiltered as [_ Hfiltered].
  destruct (Hempty eq_refl) as [written [Hrun [_ [Hrow _]]]].
  destruct (Hfiltered ltac:(discriminate)) as [Hupdate [_ [_ Hlast]]].
  split; [|split].
  - exists written. split; [exact Hrun | exact Hrow].
  - exact Hupdate.
  - apply Hlast. intros n [<-|[]]. vm_compute. discriminate.
Defined.

(** C7.  On a non-empty RangeSet [updateOrAppend(record)] is to update the
    selected rows and add no row.  After [where({})] on a table with a
    header and the data rows 2 and 3, the RangeSet is not empty and it names
    rows 2, 3 and 4: [updateOrAppend({name: 'Zoe'})] takes the update branch,
    rewrites rows 2 and 3 and writes row 4, which did not exist; the last
    populated row goes from 3 to 4. *)
Theorem updateOrAppend_after_where_adds_row :
  let m := mkRangeManager two_people [] None 2 in
  let data : Obj.t prim := [("name", PStr "Zoe")] in
  let filtered := final (where_ [] m) in
  let written := [ [PStr "name"; PStr "age"];
                   [PStr "Zoe"; PNum (Fin 28)];
                   [PStr "Zoe"; PNum (Fin 35)];
                   [PStr "Zoe"; PStr ""] ] in
  where_ [] m = Return tt filtered
  /\ map row (ranges filtered) = [2; 3; 4]
  /\ sheet filtered = two_people
  /\ getLastRow (sheet filtered) = 3
  /\ updateOrAppend data filtered = update data filtered
  /\ updateOrAppend data filtered = Return tt (set_sheet written filtered)
  /\ getLastRow written = 4.
Proof. repeat split. Qed.

(** ** Records *)

Lemma get_set {A : Type} (o : Obj.t A) (k k' : string) (v : A) :
  Obj.get (Obj.set o k v) k' = if String.eqb k k' then Some v else Obj.get o k'.
Proof.
  induction o as [|[k0 v0] rest IH]; simpl.
  - reflexivity.
  - destruct (String.eqb_spec k0 k) as [->|Hne]; simpl.
    + destruct (String.eqb_spec k k'); reflexivity.
    + rewrite IH. destruct (String.eqb_spec k0 k') as [->|]; [|reflexivity].
      destruct (String.eqb_spec k k'); [congruence | reflexivity].
Qed.

Lemma get_filter_key {A : Type} (keep : string -> bool) (o : Obj.t A)
  (k : string) :
  Obj.get (filter (fun e => keep (fst e)) o) k
  = if keep k then Obj.get o k else None.
Proof.
  induction o as [|[k0 v0] rest IH]; simpl.
  - destruct (keep k); reflexivity.
  - destruct (keep k0) eqn:Ek0; simpl.
    + destruct (String.eqb_spec k0 k) as [->|]; [rewrite Ek0; reflexivity|].
      exact IH.
    + destruct (String.eqb_spec k0 k) as [->|]; [|exact IH].
      rewrite IH, Ek0. reflexivity.
Qed.

Lemma fold_left_ext_in {A B : Type} (f g : B -> A -> B) (l : list A) :
  (forall acc x, In x l -> f acc x = g acc x) ->
  forall acc, fold_left f l acc = fold_left g l acc.
Proof.
  induction l as [|x rest IH]; intros H acc; simpl.
  - reflexivity.
  - rewrite (H acc x) by (left; reflexivity).
    apply IH. intros acc' y Hy. apply H. right. exact Hy.
Qed.

Lemma is_header_key_In (hs : Headers) (h : prim) :
  In h (header_names hs) -> is_header_key hs (prim_to_string h) = true.
Proof.
  intro H. unfold is_header_key. apply existsb_exists.
  exists h. split; [exact H | apply String.eqb_refl].
Qed.

Lemma prop_known_only (hs : Headers) (data : Obj.t prim) (h : prim) :
  In h (header_names hs) -> prop (known_only hs data) h = prop data h.
Proof.
  intro H. unfold prop, known_only.
  rewrite get_filter_key, (is_header_key_In hs h H). reflexivity.
Qed.

Lemma merged_known_only (hs : Headers) (data : Obj.t prim) (cur : list prim) :
  merged hs (known_only hs data) cur = merged hs data cur.
Proof.
  unfold merged. apply fold_left_ext_in.
  intros acc [idx colName] Hin.
  rewrite prop_known_only; [reflexivity|].
  unfold header_names. change colName with (snd (idx, colName)).
  apply in_map. exact Hin.
Qed.

Lemma headers_set_sheet (m : RangeManager) (s' : Sheet) :
  (forall c, getValue s' headerRowNumber c = getValue (sheet m) headerRowNumber c) ->
  headers (set_sheet s' m) = headers m.
Proof.
  intro H. unfold headers, getValues. cbn [sheet set_sheet lastColumnNumber].
  change (Z.to_nat offset) with 1%nat. cbn [seq map hd].
  rewrite (map_ext _ (fun j => getValue (sheet m) (headerRowNumber + Z.of_nat 0)
                                        (firstColumnNumber + Z.of_nat j)))
    by (intro j; apply H).
  reflexivity.
Qed.

Lemma forEach_update_row_known_only (hs : Headers) data
  (rs : list RangeNotation) :
  forall m,
    headers m = hs ->
    (forall n, In n rs -> row n <> headerRowNumber) ->
    forEach (update_row (known_only hs data)) rs m
    = forEach (update_row data) rs m.
Proof.
  induction rs as [|n rest IH]; intros m Hhs Hrows; simpl.
  - reflexivity.
  - unfold bind. rewrite !update_row_returns.
    assert (E : updated_row m (known_only hs data) n = updated_row m data n).
    { unfold updated_row. rewrite Hhs, merged_known_only. reflexivity. }
    rewrite E. apply IH.
    + rewrite <- Hhs. apply headers_set_sheet. intro c.
      rewrite getValue_setValues_row.
      destruct (Z.eqb_spec headerRowNumber (row n)) as [E'|_].
      * exfalso. apply (Hrows n); [left; reflexivity | congruence].
      * rewrite !andb_false_r. reflexivity.
    + intros n' Hn'. apply Hrows. right. exact Hn'.
Qed.

(** C5 as stated fails: an update whose record has a key that names no
    header returns normally and writes the selected row. *)
Lemma update_unknown_column_does_not_throw :
  let m := mkRangeManager two_people [mkRangeNotation 3 1 1 2] None 2 in
  let data : Obj.t prim := [("salary", PNum (Fin 1)); ("age", PNum (Fin 36))] in
  ~ In (PStr "salary") (header_names (headers m))
  /\ update data m
     = Return tt (set_sheet [ [PStr "name"; PStr "age"];
                              [PStr "Alice"; PNum (Fin 28)];
                              [PStr "Bob"; PNum (Fin 36)] ] m).
Proof.
  split.
  - intro H. simpl in H.
    repeat (destruct H as [H|H]; [discriminate H|]). exact H.
  - reflexivity.
Qed.

(** C5, amended.  [update] checks no column name and raises no
    unknown-column error: when the selected rows lie off the header row (as
    the rows [where] selects do), the call returns, and its effect is that of
    the same update with the record's keys that name no header left out. *)
Theorem update_ignores_unknown_columns :
  forall (m : RangeManager) (data : Obj.t prim),
    (forall n, In n (ranges m) -> row n <> headerRowNumber) ->
    exists m',
      update data m = Return tt m'
      /\ update (known_only (headers m) data) m = Return tt m'.
Proof.
  intros m data Hrows.
  destruct (update_returns data m) as [m' Hm']. exists m'.
  split; [exact Hm'|]. rewrite <- Hm'.
  unfold update, bind, this.
  destruct (0 <? List.length (ranges m))%nat; [|reflexivity].
  apply forEach_update_row_known_only; [reflexivity | exact Hrows].
Qed.

Lemma update_ignores_unknown_columns_witness :
  let m := mkRangeManager two_people [mkRangeNotation 3 1 1 2] None 2 in
  let data : Obj.t prim := [("salary", PNum (Fin 1)); ("age", PNum (Fin 36))] in
  known_only (headers m) data = [("age", PNum (Fin 36))]
  /\ exists m',
       update data m = Return tt m'
       /\ update (known_only (headers m) data) m = Return tt m'.
Proof.
  split; [reflexivity|].
  apply (update_ignores_unknown_columns
           (mkRangeManager two_people [mkRangeNotation 3 1 1 2] None 2)).
  intros n [<-|[]]. discriminate.
Defined.

(** ** [serializeRow] then [deserializeRow] *)

Lemma headers_contiguous (m : RangeManager) : contiguous (headers m).
Proof.
  unfold contiguous, headers.
  set (table := hd [] _).
  rewrite length_combine, length_map, length_seq, Nat.min_id.
  generalize (fun i : nat => Z.of_nat i + 1). generalize 0%nat.
  induction table as [|x rest IH]; intros k f; simpl; [reflexivity|].
  f_equal. apply IH.
Qed.

Lemma contiguous_position (hs : Headers) (i : nat) (e : Z * prim) :
  contiguous hs -> nth_error hs i = Some e -> fst e = Z.of_nat i + 1.
Proof.
  unfold contiguous. intros Hc Hi.
  assert (H : nth_error (map fst hs) i = Some (fst e))
    by (apply map_nth_error; exact Hi).
  rewrite Hc in H.
  assert (Hlt : (i < List.length hs)%nat)
    by (apply nth_error_Some; congruence).
  rewrite (nth_error_nth' _ 0) in H by (rewrite length_map, length_seq; exact Hlt).
  rewrite nth_tabulate in H.
  destruct (Nat.ltb_spec i (List.length hs)); [|lia].
  congruence.
Qed.

Lemma same_value_zero_refl (p : prim) : prim_same_value_zero p p = true.
Proof.
  destruct p as [| |b|n|s]; simpl; try reflexivity.
  - destruct b; reflexivity.
  - destruct n; simpl; try reflexivity. apply Z.eqb_refl.
  - apply String.eqb_refl.
Qed.

Lemma includes_refl (xs : list prim) (x : prim) :
  In x xs -> includes xs x = true.
Proof.
  intro H. unfold includes. apply existsb_exists.
  exists x. split; [exact H | apply same_value_zero_refl].
Qed.

Lemma index_nth (xs : list prim) (i : nat) :
  index xs (Z.of_nat i + 1 - 1) = nth i xs PUndefined.
Proof.
  unfold index. replace (Z.of_nat i + 1 - 1) with (Z.of_nat i) by lia.
  destruct (Z.leb_spec 0 (Z.of_nat i)); [|lia].
  rewrite Nat2Z.id. reflexivity.
Qed.

Lemma get_fold_set (data : Obj.t prim) (hs : Headers) (k : string) :
  forall acc,
    Obj.get (fold_left
               (fun total e =>
                  Obj.set total (prim_to_string (snd e))
                          (prop_key data (prim_to_string (snd e))))
               hs acc) k
    = if is_header_key hs k then Some (prop_key data k) else Obj.get acc k.
Proof.
  unfold is_header_key, header_names.
  induction hs as [|[idx h] rest IH]; intro acc; simpl.
  - reflexivity.
  - rewrite IH, get_set.
    destruct (String.eqb_spec (prim_to_string h) k) as [->|]; simpl.
    + destruct (existsb _ _); reflexivity.
    + reflexivity.
Qed.

Lemma truthy_prop_present (data : Obj.t prim) (h : prim) :
  truthy (prop data h) = true ->
  Obj.get data (prim_to_string h) = Some (prop data h).
Proof.
  unfold prop. destruct (Obj.get data (prim_to_string h)); [reflexivity|].
  discriminate.
Qed.

(** C3 as stated fails: a full record whose field is [false] does not come
    back; the row holds the empty string for it, or the current value when
    there is one, so the result depends on [currentRow]. *)
Lemma roundtrip_loses_falsy_field :
  let hs : Headers := [(1, PStr "is_active")] in
  let data : Obj.t prim := [("is_active", PBool false)] in
  Obj.keys data = ["is_active"]
  /\ roundtrip hs data [] = Ok [("is_active", PStr "")]
  /\ roundtrip hs data [PBool true] = Ok [("is_active", PBool true)]
  /\ forall currentRow, roundtrip hs data currentRow <> Ok data.
Proof.
  repeat split.
  intros currentRow H.
  unfold roundtrip in H. rewrite deserializeRow_all in H.
  injection H as H. unfold merged in H. simpl in H.
  unfold or_else in H. simpl in H.
  change (index [?x] 0) with x in H.
  destruct (truthy (index currentRow 0)) eqn:E.
  - rewrite H in E. discriminate.
  - discriminate.
Qed.

(** C3, amended.  For a header mapping with positions 1..N, none of whose
    names is a property name of [Object.prototype] ([constructor],
    [toString], [__proto__] and the like, which the empty record that
    [deserializeRow] is given answers for), and a record that holds a truthy
    value (not [undefined], [null], [false], 0, NaN or the empty string)
    under every header name, deserializing the serialized record returns,
    whatever [currentRow] is, the record that has exactly the header names as
    keys, each with the value the original record has for it: the original
    record itself when it has no other key. *)
Theorem roundtrip_truthy_record :
  forall (hs : Headers) (data : Obj.t prim) (currentRow : list prim),
    contiguous hs ->
    plain_names hs ->
    (forall h, In h (header_names hs) -> truthy (prop data h) = true) ->
    exists r,
      roundtrip hs data currentRow = Ok r
      /\ forall k, Obj.get r k
                   = if is_header_key hs k then Obj.get data k else None.
Proof.
  intros hs data currentRow Hc _ Htruthy.
  unfold roundtrip. rewrite deserializeRow_all. eexists. split; [reflexivity|].
  intro k. unfold merged.
  rewrite (fold_left_ext_in _
             (fun total e =>
                Obj.set total (prim_to_string (snd e))
                        (prop_key data (prim_to_string (snd e))))).
  - rewrite get_fold_set. simpl.
    destruct (is_header_key hs k) eqn:Ek; [|reflexivity].
    unfold is_header_key in Ek. apply existsb_exists in Ek.
    destruct Ek as [h [Hh Heq]]. apply String.eqb_eq in Heq. subst k.
    rewrite (truthy_prop_present data h (Htruthy h Hh)). reflexivity.
  - intros acc [idx h] Hin. cbn [snd].
    assert (Hh : In h (header_names hs))
      by (unfold header_names; change h with (snd (idx, h));
          apply in_map; exact Hin).
    rewrite (includes_refl _ _ Hh).
    destruct (In_nth_error _ _ Hin) as [i Hi].
    pose proof (contiguous_position hs i (idx, h) Hc Hi) as Hidx.
    cbn [fst] in Hidx. subst idx.
    rewrite index_nth.
    rewrite (nth_error_nth _ _ PUndefined
               (map_nth_error _ _ _ Hi : nth_error (serializeRow hs data currentRow) i = Some _)).
    unfold or_else at 1. cbn [prop Obj.get truthy].
    unfold or_else. rewrite (Htruthy h Hh). rewrite (Htruthy h Hh).
    reflexivity.
Qed.

Lemma roundtrip_truthy_record_witness :
  let hs : Headers := [(1, PStr "name"); (2, PStr "age")] in
  let data : Obj.t prim := [("age", PNum (Fin 35)); ("name", PStr "Bob")] in
  exists r,
    roundtrip hs data [PStr "Alice"; PNum (Fin 28)] = Ok r
    /\ forall k, Obj.get r k
                 = if is_header_key hs k then Obj.get data k else None.
Proof.
  apply (roundtrip_truthy_record
           [(1, PStr "name"); (2, PStr "age")]
           [("age", PNum (Fin 35)); ("name", PStr "Bob")]
           [PStr "Alice"; PNum (Fin 28)]).
  - reflexivity.
  - intros h [<-|[<-|[]]]; reflexivity.
  - intros h [<-|[<-|[]]]; reflexivity.
Defined.

(** ** The keys of a deserialized record *)

Lemma keys_set {A : Type} (o : Obj.t A) (k : string) (v : A) :
  map fst (Obj.set o k v) = add_key (map fst o) k.
Proof.
  unfold add_key. induction o as [|[k0 v0] rest IH]; simpl.
  - reflexivity.
  - rewrite (String.eqb_sym k k0).
    destruct (String.eqb k0 k); simpl; [reflexivity|].
    rewrite IH. destruct (existsb (String.eqb k) (map fst rest)); reflexivity.
Qed.

Lemma add_key_In (keys : list string) (k k' : string) :
  In k' (add_key keys k) <-> In k' keys \/ k' = k.
Proof.
  unfold add_key. destruct (existsb (String.eqb k) keys) eqn:E.
  - split; [tauto|]. intros [H | ->]; [exact H|].
    apply existsb_exists in E. destruct E as [x [Hx Heq]].
    apply String.eqb_eq in Heq. subst. exact Hx.
  - rewrite in_app_iff. simpl. intuition congruence.
Qed.

Lemma fold_add_key_In (l : list string) (k : string) :
  forall acc, In k (fold_left add_key l acc) <-> In k acc \/ In k l.
Proof.
  induction l as [|x rest IH]; intro acc; simpl.
  - tauto.
  - rewrite IH, add_key_In. intuition congruence.
Qed.

Section Enumeration.
Context {A : Type}.

Lemma insert_sorted_In (n : Z) (e : string * A) l x :
  In x (Obj.insert_sorted n e l) <-> x = (n, e) \/ In x l.
Proof.
  induction l as [|[n' e'] rest IH]; simpl.
  - intuition congruence.
  - destruct (n <=? n'); simpl; [intuition congruence|].
    rewrite IH. intuition congruence.
Qed.

Lemma sorted_In (l : list (Z * (string * A))) x :
  In x (fold_right (fun ne acc => Obj.insert_sorted (fst ne) (snd ne) acc) [] l)
  <-> In x l.
Proof.
  induction l as [|[n e] rest IH]; simpl; [tauto|].
  rewrite insert_sorted_In, IH. intuition congruence.
Qed.

(** [Object.entries] lists the own properties, each once. *)
Lemma entries_In (o : Obj.t A) (e : string * A) :
  In e (Obj.entries o) <-> In e o.
Proof.
  unfold Obj.entries, Obj.indexed, Obj.named.
  rewrite in_app_iff, in_map_iff, filter_In. split.
  - intros [[[n e'] [Heq Hin]]|[Hin _]]; [|exact Hin].
    simpl in Heq. subst e'. apply (proj1 (sorted_In _ _)) in Hin.
    apply in_flat_map in Hin. destruct Hin as [e0 [He0 Hin]].
    destruct (Obj.array_index (fst e0)); [|contradiction].
    destruct Hin as [Heq|[]]. congruence.
  - intro Hin. destruct (Obj.array_index (fst e)) as [n|] eqn:E.
    + left. exists (n, e). split; [reflexivity|].
      apply (proj2 (sorted_In _ _)). apply in_flat_map. exists e. split; [exact Hin|].
      rewrite E. left. reflexivity.
    + right. split; [exact Hin | reflexivity].
Qed.

Lemma keys_In (o : Obj.t A) (k : string) :
  In k (Obj.keys o) <-> In k (map fst o).
Proof.
  unfold Obj.keys. rewrite !in_map_iff.
  split; intros [e [Heq Hin]]; exists e; (split; [exact Heq|]);
    apply entries_In; exact Hin.
Qed.

Lemma indexed_none (o : Obj.t A) :
  (forall k, In k (map fst o) -> Obj.array_index k = None) ->
  Obj.indexed o = [].
Proof.
  unfold Obj.indexed. induction o as [|[k v] rest IH]; intro H; simpl.
  - reflexivity.
  - rewrite (H k) by (left; reflexivity). simpl.
    apply IH. intros k' Hk'. apply H. right. exact Hk'.
Qed.

Lemma named_all (o : Obj.t A) :
  (forall k, In k (map fst o) -> Obj.array_index k = None) ->
  Obj.named o = o.
Proof.
  unfold Obj.named. induction o as [|[k v] rest IH]; intro H; simpl.
  - reflexivity.
  - rewrite (H k) by (left; reflexivity). f_equal.
    apply IH. intros k' Hk'. apply H. right. exact Hk'.
Qed.

(** Without integer-like keys, enumeration order is creation order. *)
Lemma entries_named (o : Obj.t A) :
  (forall k, In k (map fst o) -> Obj.array_index k = None) ->
  Obj.entries o = o.
Proof.
  intro H. unfold Obj.entries.
  rewrite (indexed_none o H), (named_all o H). reflexivity.
Qed.

(** An array index is the decimal form of its number, which is not
    negative: two keys with the same number are the same key. *)
Lemma digit_of_nonneg (c : ascii) (d : Z) : digit_of c = Some d -> 0 <= d.
Proof.
  unfold digit_of. set (n := Z.of_nat (nat_of_ascii c)).
  destruct ((48 <=? n) && (n <=? 57)) eqn:E1.
  { intro H. injection H as <-. apply andb_prop in E1.
    destruct E1 as [E _]. apply Z.leb_le in E. lia. }
  destruct ((97 <=? n) && (n <=? 102)) eqn:E2.
  { intro H. injection H as <-. apply andb_prop in E2.
    destruct E2 as [E _]. apply Z.leb_le in E. lia. }
  destruct ((65 <=? n) && (n <=? 70)) eqn:E3; [|discriminate].
  intro H. injection H as <-. apply andb_prop in E3.
  destruct E3 as [E _]. apply Z.leb_le in E. lia.
Qed.

Lemma digits_from_nonneg (base : Z) (s : string) :
  0 <= base ->
  forall acc n, 0 <= acc -> digits_from base acc s = Some n -> 0 <= n.
Proof.
  intro Hb. induction s as [|c rest IH]; intros acc n Hacc H; simpl in H.
  - injection H as <-. exact Hacc.
  - destruct (digit_of c) as [d|] eqn:Ed; [|discriminate].
    destruct (d <? base); [|discriminate].
    pose proof (digit_of_nonneg _ _ Ed).
    apply (IH (base * acc + d)); [nia | exact H].
Qed.

Lemma array_index_canonical (k : string) (n : Z) :
  Obj.array_index k = Some n -> k = number_to_string (Fin n) /\ 0 <= n.
Proof.
  unfold Obj.array_index.
  destruct (digits 10 k) as [z|] eqn:Ed; [|discriminate].
  destruct (String.eqb (number_to_string (Fin z)) k && (z <=? 4294967294)) eqn:E;
    [|discriminate].
  intro H. injection H as <-. apply andb_prop in E. destruct E as [E _].
  apply String.eqb_eq in E. split; [symmetry; exact E|].
  unfold digits in Ed. destruct k; [discriminate|].
  apply (digits_from_nonneg 10 _ ltac:(lia) 0 z ltac:(lia) Ed).
Qed.

Lemma indexed_In (o : Obj.t A) (n : Z) (e : string * A) :
  In (n, e) (Obj.indexed o) <-> In e o /\ Obj.array_index (fst e) = Some n.
Proof.
  unfold Obj.indexed. rewrite in_flat_map. split.
  - intros [e0 [He0 Hin]].
    destruct (Obj.array_index (fst e0)) as [n0|] eqn:E; [|contradiction].
    destruct Hin as [Heq|[]]. injection Heq as <- <-. split; assumption.
  - intros [Hin E]. exists e. split; [exact Hin|]. rewrite E. left. reflexivity.
Qed.

Lemma indexed_NoDup (o : Obj.t A) :
  NoDup (map fst o) -> NoDup (map fst (Obj.indexed o)).
Proof.
  induction o as [|[k v] rest IH]; intro Hnd.
  - constructor.
  - inversion Hnd as [|? ? Hk Hrest]; subst.
    change (Obj.indexed ((k, v) :: rest))
      with ((match Obj.array_index k with
             | Some n => [(n, (k, v))]
             | None => []
             end ++ Obj.indexed rest)%list).
    destruct (Obj.array_index k) as [n|] eqn:E; [|exact (IH Hrest)].
    cbn [app map fst]. constructor; [|exact (IH Hrest)].
    intro Hin. apply in_map_iff in Hin. destruct Hin as [[n' e'] [Heq Hin]].
    cbn [fst] in Heq. subst n'. apply indexed_In in Hin.
    destruct Hin as [Hin E'].
    apply Hk. replace k with (fst e').
    + apply in_map. exact Hin.
    + destruct (array_index_canonical _ _ E) as [-> _].
      destruct (array_index_canonical _ _ E') as [-> _]. reflexivity.
Qed.

Lemma numbered_ascending_lower (b b' : Z) (l : list (Z * (string * A))) :
  b' <= b -> numbered_ascending b l -> numbered_ascending b' l.
Proof. destruct l as [|[n e] rest]; simpl; [tauto|]. intros Hb [H1 H2]. split; [lia | exact H2]. Qed.

Lemma insert_sorted_ascending (b n : Z) (e : string * A) l :
  numbered_ascending b l -> b < n -> (forall x, In x l -> fst x <> n) ->
  numbered_ascending b (Obj.insert_sorted n e l).
Proof.
  revert b. induction l as [|[n' e'] rest IH]; intros b Hl Hb Hfresh; simpl.
  - split; [exact Hb | exact I].
  - destruct Hl as [Hn' Hrest].
    destruct (Z.leb_spec n n') as [Hle|Hgt]; simpl.
    + split; [exact Hb|]. split; [|exact Hrest].
      specialize (Hfresh (n', e') (or_introl eq_refl)). cbn [fst] in Hfresh. lia.
    + split; [exact Hn'|]. apply IH; [exact Hrest | lia |].
      intros x Hx. apply Hfresh. right. exact Hx.
Qed.

Lemma sorted_ascending (b : Z) (l : list (Z * (string * A))) :
  NoDup (map fst l) -> (forall x, In x l -> b < fst x) ->
  numbered_ascending b
    (fold_right (fun ne acc => Obj.insert_sorted (fst ne) (snd ne) acc) [] l).
Proof.
  induction l as [|[n e] rest IH]; intros Hnd Hb; simpl; [exact I|].
  inversion Hnd as [|? ? Hn Hrest]; subst.
  apply insert_sorted_ascending.
  - apply IH; [exact Hrest|]. intros x Hx. apply Hb. right. exact Hx.
  - apply (Hb (n, e)). left. reflexivity.
  - intros x Hx Heq. apply (proj1 (sorted_In _ _)) in Hx.
    apply Hn. rewrite <- Heq. apply in_map. exact Hx.
Qed.

Lemma ascending_indices_keys (b : Z) (l : list (Z * (string * A))) :
  numbered_ascending b l ->
  (forall n e, In (n, e) l -> Obj.array_index (fst e) = Some n) ->
  ascending_indices b (map fst (map snd l)).
Proof.
  revert b. induction l as [|[n e] rest IH]; intros b Hl Hidx; simpl; [exact I|].
  destruct Hl as [Hb Hrest].
  rewrite (Hidx n e (or_introl eq_refl)). split; [exact Hb|].
  apply IH; [exact Hrest|]. intros n' e' Hin. apply Hidx. right. exact Hin.
Qed.

Lemma named_keys (o : Obj.t A) :
  map fst (Obj.named o) = filter (fun k => negb (is_index k)) (map fst o).
Proof.
  unfold Obj.named, is_index. induction o as [|[k v] rest IH]; simpl.
  - reflexivity.
  - destruct (Obj.array_index k); simpl; [exact IH | f_equal; exact IH].
Qed.

(** [Object.keys] of an object: the keys that read as array indices, in
    ascending numeric order, then the other keys in creation order. *)
Lemma keys_order (o : Obj.t A) :
  NoDup (map fst o) ->
  exists front,
    Obj.keys o
    = (front ++ filter (fun k => negb (is_index k)) (map fst o))%list
    /\ ascending_indices (-1) front
    /\ forall k, In k front <-> In k (map fst o) /\ is_index k = true.
Proof.
  intro Hnd.
  set (sorted := fold_right
                   (fun ne acc => Obj.insert_sorted (fst ne) (snd ne) acc)
                   [] (Obj.indexed o)).
  assert (Hsorted : forall n e,
             In (n, e) sorted <-> In e o /\ Obj.array_index (fst e) = Some n).
  { intros n e. unfold sorted. rewrite sorted_In. apply indexed_In. }
  exists (map fst (map snd sorted)). split; [|split].
  - unfold Obj.keys, Obj.entries. fold sorted.
    rewrite map_app, named_keys. reflexivity.
  - apply ascending_indices_keys.
    + unfold sorted. apply sorted_ascending; [apply indexed_NoDup; exact Hnd|].
      intros [n e] Hx. apply indexed_In in Hx. destruct Hx as [_ Hx].
      apply array_index_canonical in Hx. cbn [fst]. lia.
    + intros n e Hin. apply Hsorted in Hin. tauto.
  - intro k. unfold is_index. rewrite map_map, !in_map_iff. split.
    + intros [[n e] [Hk Hin]]. cbn [fst snd] in Hk. subst k.
      apply Hsorted in Hin. destruct Hin as [Hin E]. rewrite E.
      split; [exists e; tauto | reflexivity].
    + intros [[e [Hk Hin]] E]. subst k.
      destruct (Obj.array_index (fst e)) as [n|] eqn:En; [|discriminate].
      exists (n, e). split; [reflexivity|]. apply Hsorted. tauto.
Qed.

End Enumeration.

Lemma add_key_NoDup (keys : list string) (k : string) :
  NoDup keys -> NoDup (add_key keys k).
Proof.
  intro Hnd. unfold add_key. destruct (existsb (String.eqb k) keys) eqn:E.
  - exact Hnd.
  - apply NoDup_app; [exact Hnd | constructor; [intros [] | constructor] |].
    intros x Hx [Heq|[]]. subst x.
    assert (Hex : existsb (String.eqb k) keys = true)
      by (apply existsb_exists; exists k; split;
          [exact Hx | apply String.eqb_refl]).
    congruence.
Qed.

Lemma first_occurrences_NoDup (l : list string) :
  forall acc, NoDup acc -> NoDup (fold_left add_key l acc).
Proof.
  induction l as [|x rest IH]; intros acc Hnd; simpl; [exact Hnd|].
  apply IH. apply add_key_NoDup. exact Hnd.
Qed.

Lemma filter_nil {A : Type} (p : A -> bool) (l : list A) :
  (forall x, In x l -> p x = false) -> filter p l = [].
Proof.
  induction l as [|x rest IH]; intro H; simpl; [reflexivity|].
  rewrite (H x) by (left; reflexivity).
  apply IH. intros y Hy. apply H. right. exact Hy.
Qed.

Lemma deserializeRow_valid (hs : Headers) data currentValues requested :
  (forall name, In name requested -> In (PStr name) (header_names hs)) ->
  deserializeRow hs data currentValues requested
  = Ok (fold_left (deserialize_step hs requested data currentValues) hs []).
Proof.
  intro Hvalid. unfold deserializeRow.
  rewrite filter_nil; [reflexivity|].
  intros name Hname.
  rewrite (proj2 (includes_In _ _) (Hvalid name Hname)). reflexivity.
Qed.

Lemma fold_step_keys hs requested data cur (entries : Headers) :
  forall acc,
    map fst (fold_left (deserialize_step hs requested data cur) entries acc)
    = fold_left add_key
                (map prim_to_string
                     (filter (selected hs requested) (header_names entries)))
                (map fst acc).
Proof.
  induction entries as [|[idx h] rest IH]; intro acc; simpl.
  - reflexivity.
  - rewrite IH. destruct (selected hs requested h); simpl.
    + rewrite keys_set. reflexivity.
    + reflexivity.
Qed.

Lemma fold_step_values hs requested data cur (entries : Headers) (k : string)
  (v : prim) :
  forall acc,
    Obj.get (fold_left (deserialize_step hs requested data cur) entries acc) k
    = Some v ->
    Obj.get acc k = Some v
    \/ exists idx h, In (idx, h) entries /\ prim_to_string h = k
                     /\ v = stored_value data cur idx h.
Proof.
  induction entries as [|[idx h] rest IH]; intros acc H; simpl in *.
  - left. exact H.
  - destruct (IH _ H) as [Hacc|[idx' [h' [Hin [Hk Hv]]]]].
    + destruct (selected hs requested h); [|left; exact Hacc].
      rewrite get_set in Hacc.
      destruct (String.eqb_spec (prim_to_string h) k) as [Hk|_].
      * right. exists idx, h. split; [left; reflexivity|].
        split; [exact Hk | congruence].
      * left. exact Hacc.
    + right. exists idx', h'. split; [right; exact Hin|]. split; assumption.
Qed.

Lemma includes_PStr (names : list string) (h : prim) :
  includes (map PStr names) h = true
  <-> exists name, In name names /\ h = PStr name.
Proof.
  unfold includes. rewrite existsb_exists. split.
  - intros [y [Hy Heq]]. apply in_map_iff in Hy.
    destruct Hy as [name [<- Hname]]. exists name. split; [exact Hname|].
    destruct h as [| |b|n|s]; simpl in Heq; try discriminate.
    + destruct n; discriminate.
    + apply String.eqb_eq in Heq. congruence.
  - intros [name [Hname ->]]. exists (PStr name).
    split; [apply in_map; exact Hname | apply same_value_zero_refl].
Qed.

Lemma selected_effective hs requested (k : string) :
  (forall name, In name requested -> In (PStr name) (header_names hs)) ->
  In k (map prim_to_string (filter (selected hs requested) (header_names hs)))
  <-> In k (effective_names hs requested).
Proof.
  intro Hvalid. rewrite in_map_iff. unfold selected, effective_names.
  destruct requested as [|name0 rest]; cbn [List.length Nat.eqb].
  - rewrite in_map_iff. split.
    + intros [h [Hk Hin]]. apply filter_In in Hin. exists h. tauto.
    + intros [h [Hk Hin]]. exists h. split; [exact Hk|].
      apply filter_In. split; [exact Hin | apply includes_refl; exact Hin].
  - split.
    + intros [h [Hk Hin]]. apply filter_In in Hin. destruct Hin as [_ Hsel].
      apply includes_PStr in Hsel. destruct Hsel as [name [Hname ->]].
      simpl in Hk. subst. exact Hname.
    + intro Hin. exists (PStr k). split; [reflexivity|].
      apply filter_In. split; [apply Hvalid; exact Hin|].
      apply includes_PStr. exists k. split; [exact Hin | reflexivity].
Qed.

(** C8 as stated fails in the order of the keys: a header name that reads
    as an integer is enumerated before the other names, whatever its
    position among the headers. *)
Lemma deserializeRow_keys_not_in_header_order :
  let hs : Headers := [(1, PStr "name"); (2, PStr "2024")] in
  exists r,
    deserializeRow hs [] [PStr "Bob"; PNum (Fin 35)] [] = Ok r
    /\ map prim_to_string (header_names hs) = ["name"; "2024"]
    /\ Obj.keys r = ["2024"; "name"].
Proof. eexists. repeat split. Qed.

(** C8, amended.  When every requested name is a header value and no header
    is named [__proto__] (a name under which an assignment creates no
    property), [deserializeRow] returns a record; its keys are exactly the
    effective requested set (the requested names, or all header names when
    none is requested), with no other key; the keys are created in header
    position order, each name at its first position; they are enumerated
    with the keys that read as an array index first, in ascending numeric
    order, and then the other keys in creation order, so that enumeration
    order is header position order when no key reads as an array index;
    under a key that is no property name of [Object.prototype] the value is
    the record's when truthy and else the current row's, [undefined] when
    that is missing. *)
Theorem deserializeRow_keys :
  forall (hs : Headers) (data : Obj.t prim) (currentValues : list prim)
         (requested : list string),
    (forall name, In name requested -> In (PStr name) (header_names hs)) ->
    (forall h, In h (header_names hs) -> prim_to_string h <> "__proto__") ->
    exists r,
      deserializeRow hs data currentValues requested = Ok r
      /\ (forall k, In k (Obj.keys r) <-> In k (effective_names hs requested))
      /\ map fst r
         = first_occurrences
             (map prim_to_string
                  (filter (selected hs requested) (header_names hs)))
      /\ (exists front,
            Obj.keys r
            = (front ++ filter (fun k => negb (is_index k)) (map fst r))%list
            /\ ascending_indices (-1) front
            /\ forall k, In k front <-> In k (map fst r) /\ is_index k = true)
      /\ ((forall k, In k (effective_names hs requested) ->
                     Obj.array_index k = None) ->
          Obj.keys r = map fst r)
      /\ (forall k v, Obj.plain k = true -> Obj.get r k = Some v ->
                      exists idx h,
                        In (idx, h) hs /\ prim_to_string h = k
                        /\ v = stored_value data currentValues idx h).
Proof.
  intros hs data cur requested Hvalid _.
  rewrite (deserializeRow_valid hs data cur requested Hvalid).
  eexists. split; [reflexivity|].
  assert (Hkeys : forall k,
             In k (map fst (fold_left (deserialize_step hs requested data cur)
                                      hs []))
             <-> In k (effective_names hs requested)).
  { intro k. rewrite fold_step_keys, fold_add_key_In.
    rewrite (selected_effective hs requested k Hvalid). simpl. tauto. }
  split; [|split; [|split; [|split]]].
  - intro k. rewrite keys_In. apply Hkeys.
  - rewrite fold_step_keys. reflexivity.
  - apply keys_order. rewrite fold_step_keys.
    apply first_occurrences_NoDup. constructor.
  - intro Hnamed. unfold Obj.keys. rewrite entries_named; [reflexivity|].
    intros k Hk. apply Hnamed. apply Hkeys. exact Hk.
  - intros k v _ Hget.
    destruct (fold_step_values hs requested data cur hs k v [] Hget)
      as [Hnil|H]; [discriminate Hnil | exact H].
Qed.

Lemma deserializeRow_keys_witness :
  let hs : Headers := [(1, PStr "name"); (2, PStr "age"); (3, PStr "id")] in
  exists r,
    deserializeRow hs [] [PStr "Bob"] ["age"; "name"] = Ok r
    /\ Obj.keys r = ["name"; "age"]
    /\ Obj.get r "age" = Some PUndefined.
Proof.
  destruct (deserializeRow_keys
              [(1, PStr "name"); (2, PStr "age"); (3, PStr "id")]
              [] [PStr "Bob"] ["age"; "name"]) as [r [Hr _]].
  - intros name [<-|[<-|[]]]; simpl; tauto.
  - intros h [<-|[<-|[<-|[]]]]; discriminate.
  - exists r. rewrite Hr. injection Hr as <-. repeat split.
Defined.

(** ** [where] on one column *)

Lemma entries_singleton {A : Type} (k : string) (v : A) :
  Obj.entries [(k, v)] = [(k, v)].
Proof.
  unfold Obj.entries, Obj.indexed, Obj.named. simpl.
  destruct (Obj.array_index k); reflexivity.
Qed.

Lemma strict_eq_PStr (h : prim) (k : string) :
  prim_strict_eq h (PStr k) = prim_same_value_zero (PStr k) h.
Proof.
  destruct h as [| |b|n|s]; simpl; try reflexivity. apply String.eqb_sym.
Qed.

Lemma find_header_includes (hs : Headers) (colName : string) :
  includes (header_names hs) (PStr colName)
  = match find_header hs colName with Some _ => true | None => false end.
Proof.
  unfold includes, find_header, header_names.
  induction hs as [|[idx h] rest IH]; cbn [existsb find map snd];
    [reflexivity|].
  rewrite <- strict_eq_PStr.
  destruct (prim_strict_eq h (PStr colName)); cbn [orb].
  - reflexivity.
  - exact IH.
Qed.

Lemma filter_result_ext {A : Type} (f g : A -> result bool) (l : list A) :
  (forall x, f x = g x) -> filter_result f l = filter_result g l.
Proof.
  intro H. induction l as [|x rest IH]; simpl; [reflexivity|].
  rewrite H, IH. reflexivity.
Qed.

Lemma filter_result_ok {A : Type} (p : A -> bool) (l : list A) :
  filter_result (fun x => Ok (p x)) l = Ok (filter p l).
Proof.
  induction l as [|x rest IH]; simpl; [reflexivity|].
  rewrite IH. destruct (p x); reflexivity.
Qed.

(** [where] with a one-key clause whose key names a header: the candidate
    rows are filtered on that header's column. *)
Lemma where_single (m : RangeManager) (colName : string) (criterion : value)
  (entry : Z * prim) :
  find_header (headers m) colName = Some entry ->
  where_ [(colName, criterion)] m
  = let stored := set_whereOptions (Some [(colName, criterion)]) m in
    match filter_result
            (row_matches (sheet m)
                         (mkColumn (fst entry) (criterion_methods criterion)))
            (candidate_rows (getLastRow (sheet m))) with
    | Ok rows => Return tt (set_ranges (notations (sheet m) rows) stored)
    | Err e => Throw e stored
    end.
Proof.
  intro Hfind. rewrite where_unfold. cbv zeta.
  unfold invalid_columns, Obj.keys. rewrite entries_singleton.
  cbn [map fst filter].
  rewrite find_header_includes, Hfind. cbn [Bool.eqb List.length Nat.ltb Nat.leb].
  cbn [map_result]. unfold compile_column. rewrite Hfind.
  unfold option_value. cbn [Obj.get]. rewrite String.eqb_refl.
  cbn [reduce_result].
  destruct (filter_result _ _); reflexivity.
Qed.

(** [where] with a one-key clause whose key names no header. *)
Lemma where_single_unknown (m : RangeManager) (colName : string)
  (criterion : value) :
  find_header (headers m) colName = None ->
  where_ [(colName, criterion)] m
  = Throw (Error (invalid_message [colName]))
          (set_whereOptions (Some [(colName, criterion)]) m).
Proof.
  intro Hfind. rewrite where_unfold. cbv zeta.
  unfold invalid_columns, Obj.keys. rewrite entries_singleton.
  cbn [map fst filter].
  rewrite find_header_includes, Hfind. reflexivity.
Qed.

Lemma candidate_rows_nonzero (n : Z) (p : Z -> bool) (r : Z) :
  In r (filter p (candidate_rows n)) -> r <> 0.
Proof.
  intro H. apply filter_In in H. destruct H as [H _].
  apply candidate_rows_spec in H. unfold firstRowNumber in H. lia.
Qed.

(** [where] with one operator whose test cannot throw: the rows kept are
    the candidates that pass the test. *)
Lemma where_single_test (m : RangeManager) (colName : string)
  (criterion : value) (entry : Z * prim) (test : prim -> bool) :
  find_header (headers m) colName = Some entry ->
  (forall r, row_matches (sheet m)
                         (mkColumn (fst entry) (criterion_methods criterion)) r
             = Ok (test (getValue (sheet m) r (fst entry)))) ->
  thrown (where_ [(colName, criterion)] m) = None
  /\ selected_rows (where_ [(colName, criterion)] m)
     = filter (fun r => test (getValue (sheet m) r (fst entry)))
              (candidate_rows (getLastRow (sheet m))).
Proof.
  intros Hfind Htest. rewrite (where_single m colName criterion entry Hfind).
  cbv zeta.
  rewrite (filter_result_ext _ _ _ Htest), filter_result_ok.
  split; [reflexivity|].
  unfold selected_rows. cbn [final ranges set_ranges].
  apply row_notations. intros r Hr.
  apply (candidate_rows_nonzero _ _ _ Hr).
Qed.

Lemma criterion_methods_scalar (v : value) :
  isLiteralObject v = false -> criterion_methods v = [("equal", v)].
Proof. intro H. unfold criterion_methods. rewrite H. reflexivity. Qed.

Lemma criterion_methods_operator (name : string) (operand : value) :
  String.eqb name "constructor" = false ->
  criterion_methods (VObj [(name, operand)]) = [(name, operand)].
Proof.
  intro H. unfold criterion_methods. cbn [isLiteralObject Obj.get].
  rewrite H. apply entries_singleton.
Qed.

(** A column with one method: the row passes when the method says so. *)
Lemma row_matches_single (s : Sheet) (c : Z) (name : string) (operand : value)
  (test : prim -> bool) (r : Z) :
  (forall p, call_method name p operand = Ok (test p)) ->
  row_matches s (mkColumn c [(name, operand)]) r = Ok (test (getValue s r c)).
Proof.
  intro H. unfold row_matches. cbn [col_methods colId every_result fst snd].
  rewrite H. destruct (test _); reflexivity.
Qed.

(** A scalar criterion and a [deepEqual] criterion, over the candidate rows
    of [where].  For a column name that is a header, whose first position
    among the headers is [fst entry], and a scalar [v] (anything
    [isLiteralObject] refuses): [where({column: v})] returns and keeps, in
    ascending order, the candidate rows whose cell in that column is [==]
    to [v]; [where({column: {deepEqual: v}})] keeps those whose cell is
    [===] to [v]; and the scalar clause selects what
    [where({column: {equal: v}})] selects. *)
Lemma where_equal_and_deepEqual :
  forall (m : RangeManager) (colName : string) (v : value) (entry : Z * prim),
    find_header (headers m) colName = Some entry ->
    isLiteralObject v = false ->
    let scanned := candidate_rows (getLastRow (sheet m)) in
    let cell_of r := getValue (sheet m) r (fst entry) in
    (thrown (where_ [(colName, v)] m) = None
     /\ selected_rows (where_ [(colName, v)] m)
        = filter (fun r => loose_eq (cell_of r) v) scanned)
    /\ (thrown (where_ [(colName, VObj [("deepEqual", v)])] m) = None
        /\ selected_rows (where_ [(colName, VObj [("deepEqual", v)])] m)
           = filter (fun r => strict_eq (cell_of r) v) scanned)
    /\ selected_rows (where_ [(colName, v)] m)
       = selected_rows (where_ [(colName, VObj [("equal", v)])] m).
Proof.
  intros m colName v entry Hfind Hscalar scanned cell_of.
  assert (Hloose :
            thrown (where_ [(colName, v)] m) = None
            /\ selected_rows (where_ [(colName, v)] m)
               = filter (fun r => loose_eq (cell_of r) v) scanned).
  { apply (where_single_test m colName v entry (fun p => loose_eq p v) Hfind).
    intro r. rewrite (criterion_methods_scalar v Hscalar).
    apply (row_matches_single _ _ _ _ (fun p => loose_eq p v)). reflexivity. }
  split; [exact Hloose|]. split.
  - apply (where_single_test m colName _ entry (fun p => strict_eq p v) Hfind).
    intro r. rewrite criterion_methods_operator by reflexivity.
    apply (row_matches_single _ _ _ _ (fun p => strict_eq p v)). reflexivity.
  - rewrite (proj2 Hloose). symmetry.
    apply (where_single_test m colName _ entry (fun p => loose_eq p v) Hfind).
    intro r. rewrite criterion_methods_operator by reflexivity.
    apply (row_matches_single _ _ _ _ (fun p => loose_eq p v)). reflexivity.
Qed.

Lemma where_equal_and_deepEqual_witness :
  let three : Sheet :=
    [ [PStr "name"; PStr "age"];
      [PStr "Alice"; PNum (Fin 28)];
      [PStr "Bob"; PStr "28"];
      [PStr "Carol"; PNum (Fin 35)] ] in
  let m := mkRangeManager three [] None 2 in
  selected_rows (where_ [("age", VPrim (PNum (Fin 28)))] m) = [2; 3]
  /\ selected_rows
       (where_ [("age", VObj [("deepEqual", VPrim (PNum (Fin 28)))])] m) = [2].
Proof.
  pose proof (where_equal_and_deepEqual
                (mkRangeManager
                   [ [PStr "name"; PStr "age"];
                     [PStr "Alice"; PNum (Fin 28)];
                     [PStr "Bob"; PStr "28"];
                     [PStr "Carol"; PNum (Fin 35)] ] [] None 2)
                "age" (VPrim (PNum (Fin 28))) (2, PStr "age")
                eq_refl eq_refl) as H.
  cbv zeta in H. destruct H as [[_ Hloose] [[_ Hstrict] _]].
  split; [rewrite Hloose | rewrite Hstrict]; reflexivity.
Defined.

(** C4.  [where({column: v})] is to select exactly the rows of the table
    whose cell in the column is loosely equal to [v], and
    [where({column: {deepEqual: v}})] those whose cell is strictly equal to
    it.  On a table with a header and the data rows 2 and 3, whose [age]
    cells are 28 and 35, no row has an age loosely equal to 0 and none has
    one strictly equal to the empty string; yet [where({age: 0})], also
    written [where({age: {equal: 0}})], and [where({age: {deepEqual: ''}})]
    all return with row 4 selected, the row after the last populated one,
    whose cell reads as the empty string. *)
Theorem where_equal_selects_row_past_last :
  let m := mkRangeManager two_people [] None 2 in
  let zero : value := VPrim (PNum (Fin 0)) in
  let empty : value := VPrim (PStr "") in
  let age r := getValue (sheet m) r 2 in
  getLastRow (sheet m) = 3
  /\ map age [2; 3] = [PNum (Fin 28); PNum (Fin 35)]
  /\ filter (fun r => loose_eq (age r) zero) [2; 3] = []
  /\ filter (fun r => strict_eq (age r) empty) [2; 3] = []
  /\ where_ [("age", zero)] m
     = Return tt (mkRangeManager two_people [mkRangeNotation 4 1 1 2]
                                 (Some [("age", zero)]) 2)
  /\ selected_rows (where_ [("age", VObj [("equal", zero)])] m) = [4]
  /\ thrown (where_ [("age", VObj [("deepEqual", empty)])] m) = None
  /\ selected_rows (where_ [("age", VObj [("deepEqual", empty)])] m) = [4].
Proof. repeat split. Qed.

(** ** [between] *)

Lemma number_min_comm (a b : number) : number_min a b = number_min b a.
Proof. destruct a, b; simpl; try reflexivity. f_equal. apply Z.min_comm. Qed.

Lemma number_max_comm (a b : number) : number_max a b = number_max b a.
Proof. destruct a, b; simpl; try reflexivity. f_equal. apply Z.max_comm. Qed.

Lemma Math_min_pair (b1 b2 : value) :
  Math_min [b1; b2] = number_min (to_number b1) (to_number b2).
Proof. unfold Math_min. simpl. destruct (to_number b1); reflexivity. Qed.

Lemma Math_max_pair (b1 b2 : value) :
  Math_max [b1; b2] = number_max (to_number b1) (to_number b2).
Proof. unfold Math_max. simpl. destruct (to_number b1); reflexivity. Qed.

Lemma between_pair (b1 b2 : value) (actual : prim) :
  call_method "between" actual (VArr [b1; b2]) = Ok (in_range b1 b2 actual).
Proof.
  unfold in_range. rewrite <- Math_min_pair, <- Math_max_pair. reflexivity.
Qed.

Lemma in_range_swap (b1 b2 : value) (actual : prim) :
  in_range b1 b2 actual = in_range b2 b1 actual.
Proof.
  unfold in_range.
  rewrite (number_min_comm (to_number b1)), (number_max_comm (to_number b1)).
  reflexivity.
Qed.

(** C9.  [between] on a two-element operand is the inclusive test
    [min(b1, b2) <= actualValue <= max(b1, b2)], the same for both orders of
    the bounds; so [where({column: {between: [b1, b2]}})] and
    [where({column: {between: [b2, b1]}})] end alike on every table: both
    return or both throw the same error (the column naming no header), and
    they leave the same RangeSet, hence select the same rows.  This holds
    for every column name, [age] among them. *)
Theorem between_bounds_swap :
  forall (m : RangeManager) (colName : string) (b1 b2 : value),
    let o12 := where_ [(colName, VObj [("between", VArr [b1; b2])])] m in
    let o21 := where_ [(colName, VObj [("between", VArr [b2; b1])])] m in
    (forall actual,
        call_method "between" actual (VArr [b1; b2])
        = Ok (in_range b1 b2 actual)
        /\ in_range b1 b2 actual = in_range b2 b1 actual)
    /\ thrown o12 = thrown o21
    /\ ranges (final o12) = ranges (final o21)
    /\ selected_rows o12 = selected_rows o21
    /\ (forall entry,
           find_header (headers m) colName = Some entry ->
           thrown o12 = None
           /\ selected_rows o12
              = filter (fun r => in_range b1 b2 (getValue (sheet m) r (fst entry)))
                       (candidate_rows (getLastRow (sheet m)))).
Proof.
  intros m colName b1 b2 o12 o21.
  assert (Hrow : forall (x y : value) (entry : Z * prim) r,
             row_matches (sheet m)
                         (mkColumn (fst entry)
                            (criterion_methods (VObj [("between", VArr [x; y])])))
                         r
             = Ok (in_range x y (getValue (sheet m) r (fst entry)))).
  { intros x y entry r. rewrite criterion_methods_operator by reflexivity.
    apply (row_matches_single _ _ _ _ (in_range x y)).
    intro p. apply between_pair. }
  assert (Hranges : thrown o12 = thrown o21
                    /\ ranges (final o12) = ranges (final o21)).
  { subst o12 o21. destruct (find_header (headers m) colName) as [entry|] eqn:Hfind.
    - rewrite !(where_single m colName _ entry Hfind). cbv zeta.
      rewrite (filter_result_ext _ _ _ (Hrow b1 b2 entry)).
      rewrite (filter_result_ext _ _ _ (Hrow b2 b1 entry)).
      rewrite (filter_result_ext _ (fun r => Ok (in_range b2 b1
                                     (getValue (sheet m) r (fst entry))))
                 _ (fun r => f_equal Ok (in_range_swap b1 b2 _))).
      rewrite filter_result_ok. split; reflexivity.
    - rewrite !(where_single_unknown m colName _ Hfind). split; reflexivity. }
  split; [|split; [|split; [|split]]].
  - intro actual. split; [apply between_pair | apply in_range_swap].
  - apply Hranges.
  - apply Hranges.
  - unfold selected_rows. rewrite (proj2 Hranges). reflexivity.
  - intros entry Hfind. subst o12.
    apply (where_single_test m colName _ entry (in_range b1 b2) Hfind).
    intro r. apply Hrow.
Qed.

Lemma between_bounds_swap_witness :
  let ages : Sheet :=
    [ [PStr "age"]; [PNum (Fin 28)]; [PNum (Fin 35)]; [PNum (Fin 23)] ] in
  let m := mkRangeManager ages [] None 1 in
  let bound n := VPrim (PNum (Fin n)) in
  selected_rows
    (where_ [("age", VObj [("between", VArr [bound 30; bound 20])])] m)
  = [2; 4]
  /\ selected_rows
       (where_ [("age", VObj [("between", VArr [bound 30; bound 20])])] m)
     = selected_rows
         (where_ [("age", VObj [("between", VArr [bound 20; bound 30])])] m).
Proof.
  pose proof (between_bounds_swap
                (mkRangeManager
                   [ [PStr "age"]; [PNum (Fin 28)]; [PNum (Fin 35)];
                     [PNum (Fin 23)] ] [] None 1)
                "age" (VPrim (PNum (Fin 30))) (VPrim (PNum (Fin 20)))) as H.
  cbv zeta in H. destruct H as [_ [_ [_ [Hswap Hrows]]]].
  destruct (Hrows (1, PStr "age") eq_refl) as [_ Hsel].
  split; [rewrite Hsel; reflexivity | exact Hswap].
Defined.

(** Rows with ages 28, 35 and 23: the bounds 30 and 20, in either order,
    select the rows of 28 and 23. *)
Example between_20_30 :
  let ages : Sheet :=
    [ [PStr "age"]; [PNum (Fin 28)]; [PNum (Fin 35)]; [PNum (Fin 23)] ] in
  let m := mkRangeManager ages [] None 1 in
  let bound n := VPrim (PNum (Fin n)) in
  selected_rows
    (where_ [("age", VObj [("between", VArr [bound 20; bound 30])])] m) = [2; 4]
  /\ selected_rows
       (where_ [("age", VObj [("between", VArr [bound 30; bound 20])])] m)
     = [2; 4].
Proof. split; reflexivity. Qed.

(* ===================================================================== *)
(** * Further properties of the code *)
(* ===================================================================== *)


(** ** What [where] returns *)

Lemma filter_result_sound {A : Type} (f : A -> result bool) (l ys : list A) :
  filter_result f l = Ok ys ->
  ys = filter (fun x => match f x with Ok true => true | _ => false end) l.
Proof.
  revert ys. induction l as [|x rest IH]; intros ys H; simpl in *.
  - injection H as <-. reflexivity.
  - destruct (f x) as [keep|e]; [|discriminate].
    destruct (filter_result f rest) as [zs|e]; [|discriminate].
    injection H as <-. rewrite (IH zs eq_refl).
    destruct keep; reflexivity.
Qed.

Lemma filter_filter {A : Type} (p q : A -> bool) (l : list A) :
  filter q (filter p l) = filter (fun x => p x && q x) l.
Proof.
  induction l as [|x rest IH]; simpl; [reflexivity|].
  destruct (p x); simpl; [destruct (q x)|]; rewrite IH; reflexivity.
Qed.

Lemma reduce_filter_sound (s : Sheet) (cols : list Column) :
  forall init rows,
    reduce_result
      (fun rows column => filter_result (row_matches s column) rows)
      cols init = Ok rows ->
    rows = filter (fun r => forallb (fun column => column_passes s column r) cols)
                  init.
Proof.
  induction cols as [|c rest IH]; intros init rows H; simpl in *.
  - injection H as <-. clear. induction init as [|x l IH]; simpl; congruence.
  - destruct (filter_result (row_matches s c) init) as [acc|e] eqn:E;
      [|discriminate].
    rewrite (IH acc rows H), (filter_result_sound _ _ _ E), filter_filter.
    reflexivity.
Qed.

Lemma map_result_Forall2 {A B : Type} (f : A -> result B) (xs : list A) :
  forall ys, map_result f xs = Ok ys -> Forall2 (fun x y => f x = Ok y) xs ys.
Proof.
  induction xs as [|x rest IH]; intros ys H; simpl in *.
  - injection H as <-. constructor.
  - destruct (f x) as [y|e] eqn:E; [|discriminate].
    destruct (map_result f rest) as [zs|e]; [|discriminate].
    injection H as <-. constructor; [exact E | apply IH; reflexivity].
Qed.

(** A call of [where] that returns: the compiled columns and the rows
    kept. *)
Lemma where_returns (options : WhereOptions) (m m' : RangeManager) :
  where_ options m = Return tt m' ->
  exists cols,
    map_result (compile_column (headers m) options) (Obj.keys options) = Ok cols
    /\ m' = set_ranges
              (notations (sheet m)
                 (filter (fun r => forallb (fun column =>
                                              column_passes (sheet m) column r)
                                           cols)
                         (candidate_rows (getLastRow (sheet m)))))
              (set_whereOptions (Some options) m).
Proof.
  rewrite where_unfold. cbv zeta.
  destruct (0 <? _)%nat; [discriminate|].
  destruct (map_result _ _) as [cols|e]; [|discriminate].
  destruct (reduce_result _ _ _) as [rows|e] eqn:E; [|discriminate].
  intro H. injection H as <-. exists cols. split; [reflexivity|].
  rewrite (reduce_filter_sound _ _ _ _ E). reflexivity.
Qed.

Lemma every_result_true {A : Type} (f : A -> result bool) (l : list A) :
  every_result f l = Ok true <-> forall x, In x l -> f x = Ok true.
Proof.
  induction l as [|x rest IH]; simpl.
  - split; [intros _ y [] | reflexivity].
  - destruct (f x) as [[|]|e] eqn:E.
    + rewrite IH. split.
      * intros H y [<-|Hy]; [exact E | apply H; exact Hy].
      * intros H y Hy. apply H. right. exact Hy.
    + split; [discriminate|]. intro H.
      specialize (H x (or_introl eq_refl)). congruence.
    + split; [discriminate|]. intro H.
      specialize (H x (or_introl eq_refl)). congruence.
Qed.

Lemma column_passes_spec (s : Sheet) (column : Column) (r : Z) :
  column_passes s column r = true
  <-> forall method,
        In method (col_methods column) ->
        call_method (fst method) (getValue s r (colId column)) (snd method)
        = Ok true.
Proof.
  unfold column_passes, row_matches. rewrite <- every_result_true.
  destruct (every_result _ _) as [[|]|e]; split;
    intro H; try reflexivity; try discriminate H.
Qed.

Lemma ascending_filter (p : Z -> bool) (rows : list Z) :
  forall k, ascending k rows -> ascending k (filter p rows).
Proof.
  induction rows as [|r rest IH]; intros k H; simpl in *; [exact I|].
  destruct H as [Hk Hrest]. destruct (p r); simpl.
  - split; [exact Hk | apply IH; exact Hrest].
  - apply IH. apply (ascending_lower r); [lia | exact Hrest].
Qed.

Lemma ascending_seq (n : nat) :
  forall j,
    ascending (Z.of_nat j + 1)
              (map (fun index => Z.of_nat index + firstRowNumber) (seq j n)).
Proof.
  unfold firstRowNumber.
  induction n as [|n IH]; intro j; simpl; [exact I|].
  split; [lia|].
  replace (Z.of_nat j + 2) with (Z.of_nat (S j) + 1) by lia. apply IH.
Qed.

Lemma candidate_rows_ascending (n : Z) : ascending 1 (candidate_rows n).
Proof. apply (ascending_seq _ 0). Qed.

(** X1.  When [where] returns, whatever the clause: the manager holds the
    clause and the same sheet; every LocationDescriptor is one full-width
    row (column 1, one row high, as wide as the sheet's last column, 1 on an
    empty sheet); and the rows are strictly ascending, between row 2 and the
    row after the last populated one. *)
Theorem where_rangeset_shape :
  forall (options : WhereOptions) (m m' : RangeManager),
    where_ options m = Return tt m' ->
    sheet m' = sheet m
    /\ whereOptions m' = Some options
    /\ Forall (full_row (sheet m)) (ranges m')
    /\ ascending 1 (map row (ranges m'))
    /\ forall r, In r (map row (ranges m')) -> 2 <= r <= getLastRow (sheet m) + 1.
Proof.
  intros options m m' H.
  destruct (where_returns options m m' H) as [cols [_ ->]].
  cbn [sheet whereOptions ranges set_ranges set_whereOptions].
  set (kept := filter _ _).
  assert (Hrows : map row (notations (sheet m) kept) = kept).
  { apply row_notations. intros r Hr. subst kept.
    apply (candidate_rows_nonzero _ _ _ Hr). }
  split; [reflexivity|]. split; [reflexivity|]. split; [|split].
  - unfold notations. apply Forall_map. apply Forall_forall. intros r _.
    unfold full_row. cbn. repeat split.
  - rewrite Hrows. subst kept. apply ascending_filter.
    apply candidate_rows_ascending.
  - intros r Hr. rewrite Hrows in Hr. subst kept.
    apply filter_In in Hr. destruct Hr as [Hr _].
    apply candidate_rows_spec in Hr. unfold firstRowNumber in Hr. lia.
Qed.

Lemma where_rangeset_shape_witness :
  let m := mkRangeManager two_people [] None 2 in
  let options : WhereOptions := [("age", VObj [("gt", VPrim (PNum (Fin 20)))])] in
  where_ options m = Return tt (final (where_ options m))
  /\ ascending 1 (map row (ranges (final (where_ options m))))
  /\ Forall (full_row (sheet m)) (ranges (final (where_ options m))).
Proof.
  assert (Hrun : where_ [("age", VObj [("gt", VPrim (PNum (Fin 20)))])]
                        (mkRangeManager two_people [] None 2)
                 = Return tt
                     (final (where_ [("age", VObj [("gt", VPrim (PNum (Fin 20)))])]
                                    (mkRangeManager two_people [] None 2))))
    by (vm_compute; reflexivity).
  destruct (where_rangeset_shape _ _ _ Hrun) as [_ [_ [Hshape [Hasc _]]]].
  split; [exact Hrun|]. split; [exact Hasc | exact Hshape].
Defined.

(** The rows of a [where] that returned, in the embedding: the candidate
    rows at which every compiled pair answers [true]. *)
Lemma where_returns_rows (options : WhereOptions) (m m' : RangeManager) :
  where_ options m = Return tt m' ->
  exists cols,
    Forall2 (fun colName column =>
               exists entry,
                 find_header (headers m) colName = Some entry
                 /\ colId column = fst entry
                 /\ col_methods column = compiled options colName)
            (Obj.keys options) cols
    /\ forall r,
         In r (map row (ranges m'))
         <-> In r (candidate_rows (getLastRow (sheet m)))
             /\ forall column method,
                  In column cols -> In method (col_methods column) ->
                  call_method (fst method)
                              (getValue (sheet m) r (colId column))
                              (snd method)
                  = Ok true.
Proof.
  intro H.
  destruct (where_returns options m m' H) as [cols [Hcols ->]].
  exists cols. split.
  - apply map_result_Forall2 in Hcols.
    eapply Forall2_impl; [|exact Hcols].
    intros colName column Hc. unfold compile_column in Hc.
    destruct (find_header (headers m) colName) as [entry|]; [|discriminate].
    injection Hc as <-. exists entry. repeat split.
  - intro r. cbn [ranges set_ranges].
    rewrite row_notations
      by (intros r' Hr'; apply (candidate_rows_nonzero _ _ _ Hr')).
    rewrite filter_In, forallb_forall. split.
    + intros [Hr Hpass]. split; [exact Hr|]. intros column method Hc Hm.
      apply (proj1 (column_passes_spec _ _ _) (Hpass column Hc)). exact Hm.
    + intros [Hr Hpass]. split; [exact Hr|]. intros column Hc.
      apply column_passes_spec. intros method Hm. apply Hpass; assumption.
Qed.

Lemma stateless_not_constructor (name : string) :
  In name stateless_operators -> String.eqb name "constructor" = false.
Proof.
  unfold stateless_operators. simpl.
  intros [<-|[<-|[<-|[<-|[<-|[<-|[<-|[<-|[<-|[]]]]]]]]]]; reflexivity.
Qed.

(** The rows of a one-pair clause that returned. *)
Lemma where_single_pair_rows (m : RangeManager) (colName name : string)
  (operand : value) (entry : Z * prim) :
  find_header (headers m) colName = Some entry ->
  String.eqb name "constructor" = false ->
  thrown (where_ (single_pair colName name operand) m) = None ->
  forall r,
    In r (selected_rows (where_ (single_pair colName name operand) m))
    <-> In r (candidate_rows (getLastRow (sheet m)))
        /\ call_method name (getValue (sheet m) r (fst entry)) operand = Ok true.
Proof.
  intros Hfind Hname. unfold single_pair.
  rewrite (where_single m colName _ entry Hfind). cbv zeta.
  rewrite (criterion_methods_operator _ _ Hname).
  destruct (filter_result _ _) as [rows|e] eqn:E; [|discriminate].
  intros _ r. unfold selected_rows. cbn [final ranges set_ranges].
  rewrite (filter_result_sound _ _ _ E).
  rewrite row_notations
    by (intros r' Hr'; apply (candidate_rows_nonzero _ _ _ Hr')).
  rewrite filter_In. unfold row_matches.
  cbn [col_methods colId every_result fst snd].
  destruct (call_method name _ operand) as [[|]|e'];
    split; intros [H1 H2]; (split; [exact H1|]);
    try reflexivity; try discriminate.
Qed.

Lemma Forall2_In_l {X Y : Type} (R : X -> Y -> Prop) (xs : list X) (ys : list Y) :
  Forall2 R xs ys -> forall x, In x xs -> exists y, In y ys /\ R x y.
Proof.
  induction 1 as [|x0 y0 xs ys HR _ IH]; intros x Hx; [contradiction|].
  destruct Hx as [<-|Hx].
  - exists y0. split; [left; reflexivity | exact HR].
  - destruct (IH x Hx) as [y [Hy Hxy]]. exists y. split; [right; exact Hy | exact Hxy].
Qed.

Lemma Forall2_In_r {X Y : Type} (R : X -> Y -> Prop) (xs : list X) (ys : list Y) :
  Forall2 R xs ys -> forall y, In y ys -> exists x, In x xs /\ R x y.
Proof.
  induction 1 as [|x0 y0 xs ys HR _ IH]; intros y Hy; [contradiction|].
  destruct Hy as [<-|Hy].
  - exists x0. split; [left; reflexivity | exact HR].
  - destruct (IH y Hy) as [x [Hx Hxy]]. exists x. split; [right; exact Hx | exact Hxy].
Qed.

(** X2.  The clause is a conjunction, across columns and across the
    operators of a column.  For a clause whose operators are all stateless
    operators of the catalogue (every operator but [match] and [matchAny]):
    when [where] returns, and returns as well on each one-pair clause
    [{column: {operator: operand}}] the clause is made of, the rows it
    selects are the rows [where({})] selects that every one-pair clause
    selects. *)
Theorem where_is_conjunction :
  forall (options : WhereOptions) (m m' : RangeManager),
    stateless_clause options ->
    where_ options m = Return tt m' ->
    (forall colName name operand,
        In colName (Obj.keys options) ->
        In (name, operand) (compiled options colName) ->
        thrown (where_ (single_pair colName name operand) m) = None) ->
    forall r,
      In r (map row (ranges m'))
      <-> In r (selected_rows (where_ [] m))
          /\ forall colName name operand,
               In colName (Obj.keys options) ->
               In (name, operand) (compiled options colName) ->
               In r (selected_rows (where_ (single_pair colName name operand) m)).
Proof.
  intros options m m' Hstateless H Hpairs r.
  destruct (where_returns_rows options m m' H) as [cols [Hcols Hrows]].
  assert (Hall : selected_rows (where_ [] m)
                 = candidate_rows (getLastRow (sheet m))).
  { rewrite where_empty. unfold selected_rows. cbn [final ranges set_ranges].
    apply row_notations. intros r' Hr'.
    apply candidate_rows_spec in Hr'. unfold firstRowNumber in Hr'. lia. }
  rewrite Hrows, Hall. split.
  - intros [Hr Hpass]. split; [exact Hr|].
    intros colName name operand Hkey Hpair.
    destruct (Forall2_In_l _ _ _ Hcols colName Hkey)
      as [column [Hcolumn [entry [Hfind [Hid Hmethods]]]]].
    apply (where_single_pair_rows m colName name operand entry Hfind
             (stateless_not_constructor _ (Hstateless _ _ _ Hkey Hpair))
             (Hpairs _ _ _ Hkey Hpair)).
    split; [exact Hr|]. rewrite <- Hid.
    apply (Hpass column (name, operand) Hcolumn).
    rewrite Hmethods. exact Hpair.
  - intros [Hr Hpass]. split; [exact Hr|].
    intros column [name operand] Hcolumn Hmethod.
    destruct (Forall2_In_r _ _ _ Hcols column Hcolumn)
      as [colName [Hkey [entry [Hfind [Hid Hmethods]]]]].
    rewrite Hmethods in Hmethod.
    pose proof (proj1 (where_single_pair_rows m colName name operand entry Hfind
                         (stateless_not_constructor _
                            (Hstateless _ _ _ Hkey Hmethod))
                         (Hpairs _ _ _ Hkey Hmethod) r)
                      (Hpass colName name operand Hkey Hmethod)) as [_ Hcall].
    cbn [fst snd]. rewrite Hid. exact Hcall.
Qed.

Lemma where_is_conjunction_witness :
  let m := mkRangeManager people [] None 4 in
  let options : WhereOptions :=
    [ ("age", VObj [("gte", VPrim (PNum (Fin 25))); ("lte", VPrim (PNum (Fin 40)))]);
      ("is_active", VPrim (PBool true)) ] in
  map row (ranges (final (where_ options m))) = [2; 3]
  /\ selected_rows (where_ [] m) = [2; 3; 4; 5]
  /\ selected_rows (where_ (single_pair "age" "gte" (PNum (Fin 25))) m) = [2; 3]
  /\ selected_rows (where_ (single_pair "age" "lte" (PNum (Fin 40))) m)
     = [2; 3; 4; 5]
  /\ selected_rows (where_ (single_pair "is_active" "equal" (PBool true)) m)
     = [2; 3]
  /\ forall r,
       In r (map row (ranges (final (where_ options m))))
       <-> In r (selected_rows (where_ [] m))
           /\ forall colName name operand,
                In colName (Obj.keys options) ->
                In (name, operand) (compiled options colName) ->
                In r (selected_rows
                        (where_ (single_pair colName name operand) m)).
Proof.
  split; [vm_compute; reflexivity|].
  split; [vm_compute; reflexivity|].
  split; [vm_compute; reflexivity|].
  split; [vm_compute; reflexivity|].
  split; [vm_compute; reflexivity|].
  apply (where_is_conjunction
           [ ("age", VObj [("gte", VPrim (PNum (Fin 25)));
                           ("lte", VPrim (PNum (Fin 40)))]);
             ("is_active", VPrim (PBool true)) ]
           (mkRangeManager people [] None 4)).
  - intros colName name operand [<-|[<-|[]]].
    + intros [H|[H|[]]]; injection H as <- _; vm_compute; tauto.
    + intros [H|[]]; injection H as <- _; vm_compute; tauto.
  - vm_compute; reflexivity.
  - intros colName name operand [<-|[<-|[]]].
    + intros [H|[H|[]]]; injection H as <- <-; vm_compute; reflexivity.
    + intros [H|[]]; injection H as <- <-; vm_compute; reflexivity.
Defined.

(** ** Methods that only read the sheet *)

(** X3.  [where], [refresh], [clear] and [fetch] never write to the sheet:
    from every state, and whether the call returns or throws, the sheet (and
    the column count taken at construction) is the one before the call. *)
Theorem reading_methods_keep_sheet :
  forall (m : RangeManager) (options : WhereOptions) (colNames : list string),
    let same m' := sheet m' = sheet m
                   /\ lastColumnNumber m' = lastColumnNumber m in
    same (final (where_ options m))
    /\ same (final (refresh m))
    /\ same (final (clear m))
    /\ same (final (fetch colNames m)).
Proof.
  intros m options colNames same.
  assert (Hwhere : forall o, same (final (where_ o m))).
  { intro o. rewrite where_unfold. cbv zeta.
    destruct (0 <? _)%nat; [split; reflexivity|].
    destruct (map_result _ _); [|split; reflexivity].
    destruct (reduce_result _ _ _); split; reflexivity. }
  split; [apply Hwhere|]. split; [|split].
  - unfold refresh, bind, this.
    destruct (whereOptions m); [apply Hwhere | split; reflexivity].
  - split; reflexivity.
  - unfold fetch, bind, this. destruct (map_result _ _); split; reflexivity.
Qed.

(** [where] looks at the sheet and at the column count only. *)
Lemma where_again (options : WhereOptions) (m m' : RangeManager) :
  where_ options m = Return tt m' -> where_ options m' = Return tt m'.
Proof.
  intro H. pose proof H as H0. rewrite where_unfold in H. cbv zeta in H.
  rewrite where_unfold. cbv zeta.
  destruct (0 <? _)%nat eqn:E0 in H; [discriminate|].
  destruct (map_result _ _) as [cols|e] eqn:E1 in H; [|discriminate].
  destruct (reduce_result _ _ _) as [rows|e] eqn:E2 in H; [|discriminate].
  injection H as <-.
  change (headers (set_ranges _ _)) with (headers m).
  change (sheet (set_ranges _ _)) with (sheet m).
  rewrite E0, E1, E2. reflexivity.
Qed.

(** X4.  [refresh] does nothing when no clause is stored, and it changes
    nothing right after a [where] that returned on a clause whose operators
    are all stateless operators of the catalogue (every operator but [match]
    and [matchAny], whose expressions may keep [lastIndex] from one call to
    the next): replaying the stored clause on the unchanged sheet gives the
    same RangeSet. *)
Theorem refresh_is_stable :
  forall m : RangeManager,
    (whereOptions m = None -> refresh m = Return tt m)
    /\ forall options m',
         stateless_clause options ->
         where_ options m = Return tt m' -> refresh m' = Return tt m'.
Proof.
  intro m. split.
  - intro H. unfold refresh, bind, this. rewrite H. reflexivity.
  - intros options m' _ H.
    assert (Hopt : whereOptions m' = Some options)
      by (destruct (where_returns options m m' H) as [cols [_ ->]]; reflexivity).
    unfold refresh, bind, this. rewrite Hopt.
    apply (where_again options m m' H).
Qed.

Lemma refresh_is_stable_witness :
  let m := mkRangeManager people [] None 4 in
  let options : WhereOptions := [("name", VPrim (PStr "Bob"))] in
  refresh m = Return tt m
  /\ refresh (final (where_ options m)) = Return tt (final (where_ options m)).
Proof.
  destruct (refresh_is_stable (mkRangeManager people [] None 4))
    as [Hnone Hsome].
  split; [exact (Hnone eq_refl)|].
  apply (Hsome [("name", VPrim (PStr "Bob"))]).
  - intros colName name operand [<-|[]] [H|[]]; injection H as <- _.
    vm_compute. tauto.
  - vm_compute; reflexivity.
Defined.

(** ** Operators *)

Lemma candidate_rows_cons (n : Z) :
  0 < n ->
  candidate_rows n
  = firstRowNumber
      :: map (fun index => Z.of_nat index + firstRowNumber)
             (seq 1 (Z.to_nat n - 1)).
Proof.
  intro Hn. unfold candidate_rows.
  replace (Z.to_nat n) with (S (Z.to_nat n - 1)) at 1 by lia.
  reflexivity.
Qed.

Lemma plain_not_constructor (name : string) :
  Obj.plain name = true -> String.eqb name "constructor" = false.
Proof.
  unfold Obj.plain, Obj.prototype_names. cbn [existsb].
  destruct (String.eqb name "constructor"); [discriminate | reflexivity].
Qed.

(** X5.  An operator name that is neither in the catalogue nor a property
    name of [Object.prototype] (under which the catalogue object answers
    with an inherited member) is not reported when the clause is compiled:
    [where] throws a [TypeError] when it evaluates the first candidate row,
    so only on a sheet with a populated row; the clause has been stored by
    then and the RangeSet is the one before the call. *)
Theorem where_unknown_operator :
  forall (m : RangeManager) (colName name : string) (operand : value)
         (entry : Z * prim),
    find_header (headers m) colName = Some entry ->
    Obj.get methods name = None ->
    Obj.plain name = true ->
    0 < getLastRow (sheet m) ->
    where_ [(colName, VObj [(name, operand)])] m
    = Throw (TypeError "methods[method.name] is not a function")
            (mkRangeManager (sheet m) (ranges m)
                            (Some [(colName, VObj [(name, operand)])])
                            (lastColumnNumber m)).
Proof.
  intros m colName name operand entry Hfind Hname Hplain Hrows.
  rewrite (where_single m colName _ entry Hfind). cbv zeta.
  rewrite (criterion_methods_operator _ _ (plain_not_constructor _ Hplain)),
    (candidate_rows_cons _ Hrows).
  cbn [filter_result]. unfold row_matches at 1.
  cbn [col_methods every_result fst snd]. unfold call_method at 1.
  rewrite Hname. reflexivity.
Qed.

Lemma where_unknown_operator_witness :
  let m := mkRangeManager two_people [] None 2 in
  thrown (where_ [("age", VObj [("greaterThan", VPrim (PNum (Fin 1)))])] m)
  = Some (TypeError "methods[method.name] is not a function").
Proof.
  cbv zeta.
  rewrite (where_unknown_operator
             (mkRangeManager two_people [] None 2)
             "age" "greaterThan" (VPrim (PNum (Fin 1))) (2, PStr "age")
             eq_refl eq_refl eq_refl ltac:(vm_compute; reflexivity)).
  reflexivity.
Defined.

(** X6.  On an array operand, [includes] keeps the candidate rows whose
    cell is an element of the array (by SameValueZero: no coercion, NaN
    equal to itself) and [excludes] keeps exactly the other candidate rows:
    every candidate row is in one of the two RangeSets and in one only. *)
Theorem includes_excludes_partition :
  forall (m : RangeManager) (colName : string) (elems : list value)
         (entry : Z * prim),
    find_header (headers m) colName = Some entry ->
    let member r :=
      existsb (same_value_zero (getValue (sheet m) r (fst entry))) elems in
    let scanned := candidate_rows (getLastRow (sheet m)) in
    selected_rows (where_ [(colName, VObj [("includes", VArr elems)])] m)
    = filter member scanned
    /\ selected_rows (where_ [(colName, VObj [("excludes", VArr elems)])] m)
       = filter (fun r => negb (member r)) scanned.
Proof.
  intros m colName elems entry Hfind member scanned. split.
  - apply (where_single_test m colName _ entry
             (fun p => existsb (same_value_zero p) elems) Hfind).
    intro r. rewrite criterion_methods_operator by reflexivity.
    apply (row_matches_single _ _ _ _
             (fun p => existsb (same_value_zero p) elems)). reflexivity.
  - apply (where_single_test m colName _ entry
             (fun p => negb (existsb (same_value_zero p) elems)) Hfind).
    intro r. rewrite criterion_methods_operator by reflexivity.
    apply (row_matches_single _ _ _ _
             (fun p => negb (existsb (same_value_zero p) elems))).
    intro p. unfold call_method. cbn.
    destruct (existsb _ _); reflexivity.
Qed.

Lemma includes_excludes_partition_witness :
  let m := mkRangeManager people [] None 4 in
  let names := VArr [VPrim (PStr "Alice"); VPrim (PStr "Charlie")] in
  selected_rows (where_ [("name", VObj [("includes", names)])] m) = [2; 4]
  /\ selected_rows (where_ [("name", VObj [("excludes", names)])] m) = [3; 5].
Proof.
  pose proof (includes_excludes_partition
                (mkRangeManager people [] None 4) "name"
                [VPrim (PStr "Alice"); VPrim (PStr "Charlie")]
                (1, PStr "name") eq_refl) as H.
  cbv zeta in H. destruct H as [Hin Hex].
  split; [rewrite Hin | rewrite Hex]; reflexivity.
Defined.

Lemma entries_gte_lte (a b : value) :
  Obj.entries [("gte", a); ("lte", b)] = [("gte", a); ("lte", b)].
Proof.
  apply entries_named. intros k [<-|[<-|[]]]; vm_compute; reflexivity.
Qed.

(** X7.  Two operators on one column are a conjunction: with integer bounds
    [a <= b], [where({column: {gte: a, lte: b}})] and
    [where({column: {between: [a, b]}})] select the same rows. *)
Theorem gte_lte_is_between :
  forall (m : RangeManager) (colName : string) (a b : Z) (entry : Z * prim),
    find_header (headers m) colName = Some entry ->
    a <= b ->
    let bound n := VPrim (PNum (Fin n)) in
    selected_rows (where_ [(colName, VObj [("gte", bound a); ("lte", bound b)])] m)
    = selected_rows (where_ [(colName, VObj [("between", VArr [bound a; bound b])])] m).
Proof.
  intros m colName a b entry Hfind Hab bound.
  pose (test := fun p : prim => ge p (bound a) && le p (bound b)).
  assert (Hconj :
            selected_rows
              (where_ [(colName, VObj [("gte", bound a); ("lte", bound b)])] m)
            = filter (fun r => test (getValue (sheet m) r (fst entry)))
                     (candidate_rows (getLastRow (sheet m)))).
  { apply (where_single_test m colName _ entry test Hfind).
    intro r. unfold criterion_methods.
    change (isLiteralObject (VObj [("gte", bound a); ("lte", bound b)]))
      with true.
    rewrite entries_gte_lte. unfold row_matches.
    cbn [col_methods colId every_result fst snd]. unfold test.
    change (call_method "gte" ?v ?e) with (@Ok bool (ge v e)).
    change (call_method "lte" ?v ?e) with (@Ok bool (le v e)).
    destruct (ge _ (bound a)); [|reflexivity].
    destruct (le _ (bound b)); reflexivity. }
  rewrite Hconj. symmetry.
  apply (where_single_test m colName _ entry test Hfind).
  intro r. rewrite criterion_methods_operator by reflexivity.
  apply (row_matches_single _ _ _ _ test).
  intro p. rewrite between_pair. unfold in_range, test, bound, to_number.
  cbn [to_primitive prim_to_number number_min number_max].
  rewrite Z.min_l, Z.max_r by lia. reflexivity.
Qed.

Lemma gte_lte_is_between_witness :
  let m := mkRangeManager people [] None 4 in
  let bound n := VPrim (PNum (Fin n)) in
  selected_rows (where_ [("age", VObj [("gte", bound 25); ("lte", bound 40)])] m)
  = [2; 3]
  /\ selected_rows (where_ [("age", VObj [("between", VArr [bound 25; bound 40])])] m)
     = [2; 3].
Proof.
  pose proof (gte_lte_is_between (mkRangeManager people [] None 4) "age" 25 40
                (2, PStr "age") eq_refl ltac:(lia)) as H.
  cbv zeta in H. split; [|rewrite <- H]; vm_compute; reflexivity.
Defined.

(** ** The row codec *)

Lemma or_else_blank (v : prim) :
  truthy (or_else v (PStr "")) = true \/ or_else v (PStr "") = PStr "".
Proof. unfold or_else. destruct (truthy v) eqn:E; [left; exact E | right; reflexivity]. Qed.

(** X8.  [serializeRow] makes one cell per header entry, and a cell is
    either a truthy value or the empty string: a record value or current
    value that is [false], 0, NaN, [null] or [undefined] is never put in the
    row, it becomes the empty string.  With the empty record and no current
    value the row is all empty strings, when no header name is a property
    name of [Object.prototype] (under such a name the empty record answers
    with an inherited member). *)
Theorem serializeRow_cells :
  forall (hs : Headers) (data : Obj.t prim) (currentValues : list prim),
    List.length (serializeRow hs data currentValues) = List.length hs
    /\ Forall (fun v => truthy v = true \/ v = PStr "")
              (serializeRow hs data currentValues)
    /\ (plain_names hs ->
        serializeRow hs [] [] = repeat (PStr "") (List.length hs)).
Proof.
  intros hs data cur. unfold serializeRow. split; [apply length_map|]. split.
  - apply Forall_map. apply Forall_forall. intros [idx h] _.
    apply or_else_blank.
  - intros _. induction hs as [|[idx h] rest IH]; simpl; [reflexivity|].
    rewrite IH. f_equal. unfold index.
    destruct (0 <=? idx - 1); [destruct (Z.to_nat (idx - 1))|]; reflexivity.
Qed.

Lemma serializeRow_cells_witness :
  let hs : Headers := [(1, PStr "name"); (2, PStr "age")] in
  serializeRow hs [("age", PNum (Fin 0))] [PStr "Bob"; PBool false]
  = [PStr "Bob"; PStr ""]
  /\ serializeRow hs [] [] = [PStr ""; PStr ""].
Proof.
  split; [reflexivity|].
  destruct (serializeRow_cells [(1, PStr "name"); (2, PStr "age")] [] [])
    as [_ [_ Hblank]].
  apply Hblank. intros h [<-|[<-|[]]]; reflexivity.
Defined.

Lemma invalid_names_spec (hs : Headers) (requested : list string) (name : string) :
  In name (invalid_names hs requested)
  <-> In name requested /\ ~ In (PStr name) (header_names hs).
Proof.
  unfold invalid_names. rewrite filter_In, <- includes_In.
  destruct (includes (header_names hs) (PStr name)); simpl;
    intuition congruence.
Qed.

Lemma deserializeRow_invalid (hs : Headers) (data : Obj.t prim)
  (currentValues : list prim) (requested : list string) :
  (exists name, In name requested /\ ~ In (PStr name) (header_names hs)) ->
  deserializeRow hs data currentValues requested
  = Err (Error (invalid_message (invalid_names hs requested))).
Proof.
  intros [name Hname]. apply invalid_names_spec in Hname.
  unfold deserializeRow. fold (invalid_names hs requested).
  destruct (invalid_names hs requested); [contradiction | reflexivity].
Qed.

(** X9.  [deserializeRow] with a requested name that is no header value
    fails, whatever the record and the current values hold, with the
    unknown-column error that lists every such name of the request, in
    request order; with no requested name at all it never fails. *)
Theorem deserializeRow_unknown_names :
  forall (hs : Headers) (data : Obj.t prim) (currentValues : list prim)
         (requested : list string),
    ((exists name, In name requested /\ ~ In (PStr name) (header_names hs)) ->
     deserializeRow hs data currentValues requested
     = Err (Error ("[ERROR] Invalid col name(s) found: "
                   ++ join "," (invalid_names hs requested))))
    /\ (forall name, In name (invalid_names hs requested)
                     <-> In name requested /\ ~ In (PStr name) (header_names hs))
    /\ exists r, deserializeRow hs data currentValues [] = Ok r.
Proof.
  intros hs data cur requested. split; [|split].
  - apply deserializeRow_invalid.
  - apply invalid_names_spec.
  - eexists. apply deserializeRow_all.
Qed.

Lemma deserializeRow_unknown_names_witness :
  deserializeRow [(1, PStr "name"); (2, PStr "age")] [] [PStr "Bob"]
                 ["salary"; "age"; "city"]
  = Err (Error "[ERROR] Invalid col name(s) found: salary,city").
Proof.
  apply (proj1 (deserializeRow_unknown_names
                  [(1, PStr "name"); (2, PStr "age")] [] [PStr "Bob"]
                  ["salary"; "age"; "city"])).
  exists "salary". split; [left; reflexivity|].
  intros [H|[H|[]]]; discriminate H.
Defined.

(** A fold of [o[k] = v] steps over header entries with distinct keys, some
    of them skipped, leaves under the key of each entry that is not skipped
    the value of that entry. *)
Lemma get_fold_distinct (sel : prim -> bool) (val : Z * prim -> prim)
  (entries : Headers) :
  forall acc idx h,
    NoDup (map prim_to_string (header_names entries)) ->
    In (idx, h) entries ->
    sel h = true ->
    Obj.get (fold_left
               (fun total e =>
                  if sel (snd e)
                  then Obj.set total (prim_to_string (snd e)) (val e)
                  else total)
               entries acc)
            (prim_to_string h)
    = Some (val (idx, h)).
Proof.
  induction entries as [|[idx0 h0] rest IH]; intros acc idx h Hnd Hin Hsel.
  - contradiction.
  - cbn [header_names map snd] in Hnd.
    inversion Hnd as [|k ks Hnotin Hnd']; subst.
    cbn [fold_left snd]. destruct Hin as [Heq|Hin].
    + injection Heq as -> ->. rewrite Hsel.
      assert (Hkeep : forall (l : Headers) a,
                 ~ In (prim_to_string h) (map prim_to_string (header_names l)) ->
                 Obj.get (fold_left
                            (fun total e =>
                               if sel (snd e)
                               then Obj.set total (prim_to_string (snd e)) (val e)
                               else total)
                            l a) (prim_to_string h)
                 = Obj.get a (prim_to_string h)).
      { clear. induction l as [|[i x] l IH]; intros a Hn; [reflexivity|].
        cbn [fold_left snd]. cbn [header_names map snd] in Hn.
        rewrite IH by (intro H; apply Hn; right; exact H).
        destruct (sel x); [|reflexivity].
        rewrite get_set.
        destruct (String.eqb_spec (prim_to_string x) (prim_to_string h)) as [E|_];
          [|reflexivity].
        exfalso. apply Hn. left. exact E. }
      rewrite Hkeep by exact Hnotin.
      rewrite get_set, String.eqb_refl. reflexivity.
    + apply IH; assumption.
Qed.

Lemma deserialized_prop (hs : Headers) (requested : list string)
  (data : Obj.t prim) (values : list prim) (idx : Z) (h : prim) :
  distinct_names hs ->
  In (idx, h) hs ->
  selected hs requested h = true ->
  Obj.get (fold_left (deserialize_step hs requested data values) hs [])
          (prim_to_string h)
  = Some (stored_value data values idx h).
Proof.
  intros Hnd Hin Hsel.
  rewrite (fold_left_ext_in _
             (fun total e =>
                if selected hs requested (snd e)
                then Obj.set total (prim_to_string (snd e))
                             (stored_value data values (fst e) (snd e))
                else total))
    by (intros acc [i x] _; reflexivity).
  apply (get_fold_distinct (selected hs requested)
           (fun e => stored_value data values (fst e) (snd e))
           hs [] idx h Hnd Hin Hsel).
Qed.






(** With a header name that occurs twice, the first of the two columns
    receives the value of the second. *)
Example update_row_duplicate_header :
  let twice : Sheet := [ [PStr "tag"; PStr "tag"]; [PStr "a"; PStr "b"] ] in
  let m := mkRangeManager twice [mkRangeNotation 2 1 1 2] None 2 in
  sheet (final (update [] m)) = [ [PStr "tag"; PStr "tag"]; [PStr "b"; PStr "b"] ].
Proof. reflexivity. Qed.

(** ** [headers] *)

Lemma combine_map_seq {A B : Type} (f : nat -> A) (g : nat -> B) (l : list nat) :
  combine (map f l) (map g l) = map (fun x => (f x, g x)) l.
Proof. induction l as [|x rest IH]; simpl; [reflexivity|]. rewrite IH. reflexivity. Qed.

Lemma headers_closed_form (m : RangeManager) :
  headers m
  = map (fun j => (Z.of_nat j + 1, getValue (sheet m) 1 (Z.of_nat j + 1)))
        (seq 0 (Z.to_nat (lastColumnNumber m))).
Proof.
  unfold headers, getValues. change (Z.to_nat offset) with 1%nat.
  cbn [seq map hd]. rewrite length_map, length_seq.
  rewrite combine_map_seq. apply map_ext. intro j.
  unfold headerRowNumber, firstColumnNumber. do 2 f_equal. lia.
Qed.

Lemma headers_In (m : RangeManager) (p : Z) (name : prim) :
  In (p, name) (headers m)
  <-> 1 <= p <= lastColumnNumber m /\ name = getValue (sheet m) 1 p.
Proof.
  rewrite headers_closed_form, in_map_iff. split.
  - intros [j [Heq Hj]]. injection Heq as <- <-. apply in_seq in Hj.
    split; [lia | reflexivity].
  - intros [Hp ->]. exists (Z.to_nat (p - 1)). split.
    + replace (Z.of_nat (Z.to_nat (p - 1)) + 1) with p by lia. reflexivity.
    + apply in_seq. lia.
Qed.

(** X11.  The header mapping has one entry per column up to the column
    count taken at construction, at positions 1, 2, ..., in this order, and
    the name at position [p] is the value of the cell of row 1, column [p],
    as the sheet is when [headers] is read. *)
Theorem headers_are_first_row :
  forall m : RangeManager,
    List.length (headers m) = Z.to_nat (lastColumnNumber m)
    /\ map fst (headers m)
       = map (fun j => Z.of_nat j + 1) (seq 0 (Z.to_nat (lastColumnNumber m)))
    /\ forall p name, In (p, name) (headers m)
                      <-> 1 <= p <= lastColumnNumber m
                          /\ name = getValue (sheet m) 1 p.
Proof.
  intro m. split; [|split].
  - rewrite headers_closed_form, length_map, length_seq. reflexivity.
  - rewrite headers_closed_form, map_map. reflexivity.
  - apply headers_In.
Qed.

(** ** [fetch] *)

Lemma map_result_ok {A B : Type} (f : A -> result B) (g : A -> B) (xs : list A) :
  (forall x, In x xs -> f x = Ok (g x)) -> map_result f xs = Ok (map g xs).
Proof.
  induction xs as [|x rest IH]; intro H; simpl; [reflexivity|].
  rewrite (H x) by (left; reflexivity).
  rewrite IH by (intros y Hy; apply H; right; exact Hy). reflexivity.
Qed.

(** X12.  [fetch] on an empty RangeSet returns the empty list and does not
    look at the requested names; on a non-empty RangeSet a requested name
    that is no header value makes it throw the unknown-column error listing
    every such name, the manager being left as it was. *)
Theorem fetch_unknown_column :
  forall (m : RangeManager) (colNames : list string),
    (ranges m = [] -> fetch colNames m = Return [] m)
    /\ (ranges m <> [] ->
        (exists name, In name colNames
                      /\ ~ In (PStr name) (header_names (headers m))) ->
        fetch colNames m
        = Throw (Error ("[ERROR] Invalid col name(s) found: "
                        ++ join "," (invalid_names (headers m) colNames)))
                m).
Proof.
  intros m colNames. split.
  - intro H. unfold fetch, bind, this. rewrite H. reflexivity.
  - intros Hne Hbad. unfold fetch, bind, this.
    destruct (ranges m) as [|n rest]; [contradiction|].
    cbn [map map_result].
    rewrite (deserializeRow_invalid (headers m) [] _ colNames Hbad).
    reflexivity.
Qed.

Lemma fetch_unknown_column_witness :
  let m := mkRangeManager two_people [mkRangeNotation 3 1 1 2] None 2 in
  fetch ["salary"] (set_ranges [] m) = Return [] (set_ranges [] m)
  /\ fetch ["salary"; "name"] m
     = Throw (Error "[ERROR] Invalid col name(s) found: salary") m.
Proof.
  split.
  - apply (proj1 (fetch_unknown_column
                    (mkRangeManager two_people [] None 2) ["salary"])).
    reflexivity.
  - apply (proj2 (fetch_unknown_column
                    (mkRangeManager two_people [mkRangeNotation 3 1 1 2] None 2)
                    ["salary"; "name"])).
    + discriminate.
    + exists "salary". split; [left; reflexivity|].
      vm_compute. intuition discriminate.
Defined.

Lemma first_row_values_index (s : Sheet) (n : RangeNotation) (idx : Z) :
  1 <= numRows n ->
  1 <= idx <= numColumns n ->
  index (first_row_values s n) (idx - 1)
  = getValue s (row n) (column n + idx - 1).
Proof.
  intros Hrows Hidx. unfold first_row_values, getValues.
  replace (Z.to_nat (numRows n)) with (S (Z.to_nat (numRows n) - 1)) by lia.
  cbn [seq map hd]. unfold index.
  destruct (Z.leb_spec 0 (idx - 1)); [|lia].
  rewrite (nth_tabulate _ _ _ PUndefined).
  destruct (Nat.ltb_spec (Z.to_nat (idx - 1)) (Z.to_nat (numColumns n))); [|lia].
  f_equal; lia.
Qed.

Lemma selected_requested (hs : Headers) (colNames : list string) (k : string) :
  In (PStr k) (header_names hs) ->
  colNames = [] \/ In k colNames ->
  selected hs colNames (PStr k) = true.
Proof.
  intros Hk Hreq. unfold selected.
  destruct colNames as [|c rest]; cbn [List.length Nat.eqb].
  - apply includes_refl. exact Hk.
  - apply includes_PStr. exists k. split; [|reflexivity].
    destruct Hreq as [Hnil|Hin]; [discriminate | exact Hin].
Qed.

(** X13.  When every requested name is a header value, [fetch] returns,
    leaving the manager as it was, one record per LocationDescriptor, in
    RangeSet order.  With pairwise distinct header names, the record of a
    descriptor holds under a requested header name (any header name when
    none is requested) that is no property name of [Object.prototype] the
    value of the descriptor's row in that header's column, provided the
    descriptor spans that column: the cell as it is, 0, [false] and the
    empty string included. *)
Theorem fetch_returns_cells :
  forall (m : RangeManager) (colNames : list string),
    (forall name, In name colNames -> In (PStr name) (header_names (headers m))) ->
    exists records,
      fetch colNames m = Return records m
      /\ List.length records = List.length (ranges m)
      /\ (distinct_names (headers m) ->
          forall i n r idx k,
            nth_error (ranges m) i = Some n ->
            nth_error records i = Some r ->
            In (idx, PStr k) (headers m) ->
            Obj.plain k = true ->
            colNames = [] \/ In k colNames ->
            1 <= numRows n ->
            idx <= numColumns n ->
            Obj.get r k
            = Some (getValue (sheet m) (row n) (column n + idx - 1))).
Proof.
  intros m colNames Hvalid.
  set (record_of := fun values : list prim =>
         fold_left (deserialize_step (headers m) colNames [] values)
                   (headers m) []).
  exists (map record_of (map (first_row_values (sheet m)) (ranges m))).
  split; [|split].
  - unfold fetch, bind, this.
    rewrite (map_result_ok _ record_of); [reflexivity|].
    intros values _. apply deserializeRow_valid. exact Hvalid.
  - rewrite !length_map. reflexivity.
  - intros Hnd i n r idx k Hn Hr Hin _ Hreq Hrows Hidx.
    rewrite map_map in Hr.
    rewrite (map_nth_error _ _ _ Hn) in Hr. injection Hr as <-.
    assert (Hpos : 1 <= idx)
      by (apply (proj1 (headers_In m idx (PStr k))) in Hin; lia).
    assert (Hk : In (PStr k) (header_names (headers m)))
      by (unfold header_names; change (PStr k) with (snd (idx, PStr k));
          apply in_map; exact Hin).
    unfold record_of.
    change k with (prim_to_string (PStr k)) at 1.
    rewrite (deserialized_prop _ _ _ _ idx (PStr k) Hnd Hin
               (selected_requested _ _ _ Hk Hreq)).
    unfold stored_value, or_else. cbn [prop Obj.get truthy].
    rewrite first_row_values_index by lia. reflexivity.
Qed.

Lemma fetch_returns_cells_witness :
  let m := mkRangeManager people [mkRangeNotation 4 1 1 4] None 4 in
  exists records,
    fetch ["is_active"; "name"] m = Return records m
    /\ (forall r, nth_error records 0 = Some r ->
                  Obj.get r "is_active" = Some (PBool false)
                  /\ Obj.get r "name" = Some (PStr "Charlie")).
Proof.
  destruct (fetch_returns_cells
              (mkRangeManager people [mkRangeNotation 4 1 1 4] None 4)
              ["is_active"; "name"]) as [records [Hrun [_ Hcells]]].
  - intros name [<-|[<-|[]]]; vm_compute; tauto.
  - exists records. split; [exact Hrun|]. intros r Hr.
    assert (Hnd : distinct_names
                    (headers (mkRangeManager people [mkRangeNotation 4 1 1 4]
                                             None 4)))
      by (unfold distinct_names; vm_compute;
          repeat constructor; simpl; intuition discriminate).
    split.
    + apply (Hcells Hnd 0%nat (mkRangeNotation 4 1 1 4) r 4 "is_active");
        try reflexivity; try exact Hr; try (simpl; lia).
      * vm_compute. tauto.
      * right. left. reflexivity.
    + apply (Hcells Hnd 0%nat (mkRangeNotation 4 1 1 4) r 1 "name");
        try reflexivity; try exact Hr; try (simpl; lia).
      * vm_compute. tauto.
      * right. right. left. reflexivity.
Defined.

(** ** The Unfiltered state *)

(** X14.  A manager just constructed is Unfiltered, and so is a manager
    after [clear]; on an Unfiltered manager [fetch] returns the empty list
    and [update], [deleteRows] and [refresh] return without changing the
    manager, a sheet write included. *)
Theorem unfiltered_manager_is_inert :
  (forall ss sheetName m, from ss sheetName = Ok m -> unfiltered m)
  /\ (forall m, exists m', clear m = Return tt m' /\ unfiltered m'
                           /\ sheet m' = sheet m)
  /\ forall m (data : Obj.t prim) (colNames : list string),
       unfiltered m ->
       fetch colNames m = Return [] m
       /\ update data m = Return tt m
       /\ deleteRows m = Return tt m
       /\ refresh m = Return tt m.
Proof.
  split; [|split].
  - intros ss sheetName m H. unfold from in H.
    destruct (getSheetByName ss sheetName); [|discriminate].
    injection H as <-. split; reflexivity.
  - intro m. eexists. split; [reflexivity|]. repeat split.
  - intros m data colNames [Hranges Hwhere].
    unfold fetch, update, deleteRows, refresh, bind, this.
    rewrite Hranges, Hwhere. repeat split.
Qed.

Lemma unfiltered_manager_is_inert_witness :
  let m := mkRangeManager people [] None 4 in
  from [("TestSheet", people)] "TestSheet" = Ok m
  /\ fetch ["name"] m = Return [] m
  /\ update [("name", PStr "Zoe")] m = Return tt m.
Proof.
  destruct unfiltered_manager_is_inert as [Hfrom [_ Hinert]].
  assert (Hm : from [("TestSheet", people)] "TestSheet"
               = Ok (mkRangeManager people [] None 4)) by reflexivity.
  destruct (Hinert _ [("name", PStr "Zoe")] ["name"] (Hfrom _ _ _ Hm))
    as [Hfetch [Hupdate _]].
  split; [exact Hm|]. split; [exact Hfetch | exact Hupdate].
Defined.

(** ** [where] then [deleteRows] *)

Lemma deleteRows_runs (m : RangeManager) :
  deleteRows m
  = Return tt (set_sheet (fold_left deleteRow (delete_targets (ranges m))
                                    (sheet m)) m).
Proof.
  unfold deleteRows, bind at 1, this.
  destruct (ranges m) as [|r rest] eqn:E.
  - simpl. destruct m; simpl in *; subst; reflexivity.
  - replace (0 <? List.length (r :: rest))%nat with true by reflexivity.
    apply forEach_assign.
Qed.

(** X15.  [where(options).deleteRows()]: when [where] returns, the
    [deleteRows] that follows removes from the sheet exactly the rows
    [where] selected, every other row staying in its order, and it leaves
    the RangeSet as [where] made it, naming rows that are gone. *)
Theorem where_then_deleteRows :
  forall (options : WhereOptions) (m m' : RangeManager),
    where_ options m = Return tt m' ->
    exists s',
      deleteRows m' = Return tt (set_sheet s' m')
      /\ s' = without_rows (map row (ranges m')) (sheet m).
Proof.
  intros options m m' H. eexists. split; [apply deleteRows_runs|].
  assert (Hasc : ascending 0 (map row (ranges m'))).
  { destruct (where_returns options m m' H) as [cols [_ ->]].
    cbn [ranges set_ranges].
    rewrite row_notations
      by (intros r Hr; apply (candidate_rows_nonzero _ _ _ Hr)).
    apply (ascending_lower 1); [lia|].
    apply ascending_filter. apply candidate_rows_ascending. }
  assert (Hsheet : sheet m' = sheet m)
    by (destruct (where_returns options m m' H) as [cols [_ ->]]; reflexivity).
  rewrite Hsheet.
  replace (delete_targets (ranges m'))
    with (targets_from 0 (map row (ranges m')))
    by (unfold targets_from, delete_targets; rewrite length_map; reflexivity).
  rewrite (fold_deleteRow_targets _ 0 _ Hasc).
  f_equal. rewrite <- (map_id (map row (ranges m'))) at 2.
  apply map_ext. intro r. simpl. lia.
Qed.

Lemma where_then_deleteRows_witness :
  let m := mkRangeManager people [] None 4 in
  let options : WhereOptions := [("is_active", VPrim (PBool true))] in
  exists s',
    deleteRows (final (where_ options m))
    = Return tt (set_sheet s' (final (where_ options m)))
    /\ s' = [ [PStr "name"; PStr "age"; PStr "id"; PStr "is_active"];
              [PStr "Charlie"; PNum (Fin 23); PNum (Fin 3); PBool false] ].
Proof.
  destruct (where_then_deleteRows
              [("is_active", VPrim (PBool true))]
              (mkRangeManager people [] None 4)
              (final (where_ [("is_active", VPrim (PBool true))]
                             (mkRangeManager people [] None 4)))
              ltac:(vm_compute; reflexivity)) as [s' [Hrun Hs']].
  exists s'. split; [exact Hrun|]. rewrite Hs'. vm_compute. reflexivity.
Defined.

(** ** [append] and the last row *)










(** ** [prepend] *)

(** After a write of the block [data] at [(row, column)], the cells under
    the block read as its values and every other cell reads as before. *)
Lemma getValue_setValues (s : Sheet) (row column : Z) (data : list (list prim))
  (r c : Z) :
  getValue (setValues s row column data) r c
  = if (1 <=? row) && (1 <=? column) && (row <=? r)
       && (r <? row + Z.of_nat (List.length data)) && (column <=? c)
       && (c <? column
                + Z.of_nat (List.length (nth (Z.to_nat (r - row)) data [])))
    then nth (Z.to_nat (c - column)) (nth (Z.to_nat (r - row)) data []) blank
    else getValue s r c.
Proof.
  unfold setValues.
  destruct (Z.leb_spec 1 row) as [Hrow|Hrow]; [|reflexivity].
  destruct (Z.leb_spec 1 column) as [Hcol|Hcol]; [|reflexivity].
  cbn [andb].
  destruct (Z_lt_le_dec r 1) as [Hr|Hr].
  { rewrite !getValue_outside by (left; exact Hr).
    destruct (Z.leb_spec row r); [lia|]. reflexivity. }
  destruct (Z_lt_le_dec c 1) as [Hc|Hc].
  { rewrite !getValue_outside by (right; exact Hc).
    destruct (Z.leb_spec column c); [lia|]. rewrite !andb_false_r.
    reflexivity. }
  rewrite !getValue_cell by assumption. unfold cell.
  rewrite nth_tabulate.
  set (i := Z.to_nat (r - 1)). set (j := Z.to_nat (c - 1)).
  set (r0 := Z.to_nat (row - 1)). set (c0 := Z.to_nat (column - 1)).
  destruct (Z.leb_spec row r) as [Hle|Hgt];
    [destruct (Z.ltb_spec r (row + Z.of_nat (List.length data))) as [Hin|Hout]|];
    cbn [andb].
  - replace ((r0 <=? i)%nat && (i <? r0 + List.length data)%nat) with true
      by (subst i r0; symmetry; apply andb_true_intro; split;
          [apply Nat.leb_le | apply Nat.ltb_lt]; lia).
    replace (i <? Nat.max (List.length s) (r0 + List.length data))%nat
      with true by (subst i r0; symmetry; apply Nat.ltb_lt; lia).
    replace (i - r0)%nat with (Z.to_nat (r - row)) by (subst i r0; lia).
    rewrite nth_write_row.
    set (vals := nth (Z.to_nat (r - row)) data []).
    destruct (Z.leb_spec column c), (Nat.leb_spec c0 j);
      try (subst j c0; lia); cbn [andb]; [|reflexivity].
    destruct (Z.ltb_spec c (column + Z.of_nat (List.length vals))),
             (Nat.ltb_spec j (c0 + List.length vals));
      try (subst j c0; lia); [|reflexivity].
    f_equal. subst j c0. lia.
  - replace ((r0 <=? i)%nat && (i <? r0 + List.length data)%nat) with false
      by (subst i r0; symmetry; apply andb_false_iff; right;
          apply Nat.ltb_ge; lia).
    destruct (Nat.ltb_spec i (Nat.max (List.length s) (r0 + List.length data)));
      [reflexivity|].
    rewrite (nth_overflow s) by lia. reflexivity.
  - replace ((r0 <=? i)%nat && (i <? r0 + List.length data)%nat) with false
      by (subst i r0; symmetry; apply andb_false_iff; left;
          apply Nat.leb_gt; lia).
    destruct (Nat.ltb_spec i (Nat.max (List.length s) (r0 + List.length data)));
      [reflexivity|].
    rewrite (nth_overflow s) by lia. reflexivity.
Qed.

Lemma prepend_runs (data : Obj.t prim) (m : RangeManager) :
  0 < getLastRow (sheet m) ->
  0 < getLastColumn (sheet m) ->
  prepend data m
  = Return tt
      (set_sheet
         (setValues
            (clearContent (sheet m) firstRowNumber firstColumnNumber 1
                          (getLastColumn (sheet m)))
            firstRowNumber firstColumnNumber
            (serializeRow (headers m) data []
               :: getValues (sheet m) 2 1 (getLastRow (sheet m) - 1)
                            (getLastColumn (sheet m))))
         m).
Proof.
  intros HL HW. unfold prepend, bind, this, assign.
  destruct (Z.eqb_spec (getLastColumn (sheet m)) 0); [lia|].
  destruct (Z.eqb_spec (getLastRow (sheet m)) 0); [lia|].
  reflexivity.
Qed.

(** X17.  [prepend] on a sheet with no populated cell does nothing: the
    record is not written.  Otherwise it returns with the header row as it
    was, the serialized record in row 2, and every data row moved down by
    one: within the sheet's width, row [r + 1] reads as row [r] did, for
    every [r] from 2 to the last populated row. *)
Theorem prepend_moves_rows_down :
  forall (m : RangeManager) (data : Obj.t prim),
    let height := getLastRow (sheet m) in
    let width := getLastColumn (sheet m) in
    let new_row := serializeRow (headers m) data [] in
    ((height = 0 \/ width = 0) -> prepend data m = Return tt m)
    /\ (0 < height -> 0 < width ->
        exists after,
          prepend data m = Return tt (set_sheet after m)
          /\ (forall c, getValue after 1 c = getValue (sheet m) 1 c)
          /\ (forall j, (j < List.length new_row)%nat ->
                        getValue after 2 (Z.of_nat j + 1) = nth j new_row blank)
          /\ (forall r c, 2 <= r <= height -> 1 <= c <= width ->
                          getValue after (r + 1) c = getValue (sheet m) r c)).
Proof.
  intros m data height width new_row. split.
  - intro H. unfold prepend, bind, this. fold height width.
    destruct H as [-> | ->]; [rewrite andb_false_r|]; reflexivity.
  - intros HL HW. eexists. split; [apply prepend_runs; assumption|].
    fold height width new_row. unfold firstRowNumber, firstColumnNumber.
    split; [|split].
    + intro c. rewrite getValue_setValues.
      destruct (Z.leb_spec 2 1); [lia|]. cbn [andb].
      unfold clearContent. rewrite getValue_setValues.
      destruct (Z.leb_spec 2 1); [lia|]. reflexivity.
    + intros j Hj. rewrite getValue_setValues.
      cbn [List.length]. replace (Z.to_nat (2 - 2)) with 0%nat by lia.
      cbn [nth].
      replace (2 <? 2 + Z.of_nat (S (List.length
                 (getValues (sheet m) 2 1 (height - 1) width)))) with true
        by (symmetry; apply Z.ltb_lt; lia).
      replace (1 <=? Z.of_nat j + 1) with true by (symmetry; apply Z.leb_le; lia).
      replace (Z.of_nat j + 1 <? 1 + Z.of_nat (List.length new_row)) with true
        by (symmetry; apply Z.ltb_lt; lia).
      cbn [andb Z.leb Z.compare Pos.compare Pos.compare_cont].
      f_equal. lia.
    + intros r c Hr Hc. rewrite getValue_setValues.
      assert (Hlen : List.length (getValues (sheet m) 2 1 (height - 1) width)
                     = Z.to_nat (height - 1))
        by (unfold getValues; rewrite length_map, length_seq; reflexivity).
      cbn [List.length]. rewrite Hlen.
      replace (Z.to_nat (r + 1 - 2)) with (S (Z.to_nat (r - 2))) by lia.
      cbn [nth]. unfold getValues at 1 2.
      rewrite !(nth_tabulate _ _ _ []).
      destruct (Nat.ltb_spec (Z.to_nat (r - 2)) (Z.to_nat (height - 1))); [|lia].
      rewrite length_map, length_seq, (nth_tabulate _ _ _ blank).
      destruct (Nat.ltb_spec (Z.to_nat (c - 1)) (Z.to_nat width)); [|lia].
      replace (2 <=? r + 1) with true by (symmetry; apply Z.leb_le; lia).
      replace (r + 1 <? 2 + Z.of_nat (S (Z.to_nat (height - 1)))) with true
        by (symmetry; apply Z.ltb_lt; lia).
      replace (1 <=? c) with true by (symmetry; apply Z.leb_le; lia).
      replace (c <? 1 + Z.of_nat (Z.to_nat width)) with true
        by (symmetry; apply Z.ltb_lt; lia).
      cbn [andb Z.leb Z.compare Pos.compare Pos.compare_cont].
      f_equal; lia.
Qed.

Lemma prepend_moves_rows_down_witness :
  let m := mkRangeManager two_people [] None 2 in
  let empty := mkRangeManager [] [] None 0 in
  prepend [("name", PStr "Zoe")] empty = Return tt empty
  /\ exists after,
       prepend [("name", PStr "Zoe")] m = Return tt (set_sheet after m)
       /\ getValue after 2 1 = PStr "Zoe"
       /\ getValue after 4 1 = PStr "Bob".
Proof.
  split.
  - apply (proj1 (prepend_moves_rows_down (mkRangeManager [] [] None 0)
                    [("name", PStr "Zoe")])).
    left. reflexivity.
  - destruct (proj2 (prepend_moves_rows_down
                       (mkRangeManager two_people [] None 2)
                       [("name", PStr "Zoe")])
                    ltac:(vm_compute; reflexivity)
                    ltac:(vm_compute; reflexivity))
      as [after [Hrun [_ [Hnew Hold]]]].
    exists after. split; [exact Hrun|]. split.
    + apply (Hnew 0%nat). apply Nat.ltb_lt. vm_compute. reflexivity.
    + apply (Hold 3 1); split; apply Z.leb_le; vm_compute; reflexivity.
Defined.

(** ** [equal], [deepEqual], [match] and [matchAny] *)

Lemma number_eqb_refl_of (x y : number) :
  number_eqb x y = true -> x = y.
Proof.
  destruct x, y; simpl; try discriminate; try reflexivity.
  intro H. apply Z.eqb_eq in H. congruence.
Qed.

Lemma strict_implies_loose (a : prim) (b : value) :
  strict_eq a b = true -> loose_eq a b = true.
Proof.
  destruct b as [q| | |]; simpl; try discriminate.
  destruct a as [| |x|x|x], q as [| |y|y|y]; simpl; try discriminate;
    try reflexivity; try (intro H; exact H).
  intro H. apply Bool.eqb_prop in H. subst. destruct y; reflexivity.
Qed.

Lemma filter_sublist {A : Type} (p q : A -> bool) (l : list A) :
  (forall x, p x = true -> q x = true) ->
  forall x, In x (filter p l) -> In x (filter q l).
Proof.
  intros H x Hx. apply filter_In in Hx. apply filter_In.
  destruct Hx as [Hin Hp]. split; [exact Hin | apply H; exact Hp].
Qed.

(** X18.  Strict equality implies loose equality, so every row that
    [where({column: {deepEqual: v}})] selects is also selected by
    [where({column: {equal: v}})]; the converse fails when the cell and [v]
    differ in type only. *)
Theorem deepEqual_rows_are_equal_rows :
  forall (m : RangeManager) (colName : string) (v : value) (entry : Z * prim),
    find_header (headers m) colName = Some entry ->
    forall r,
      In r (selected_rows (where_ [(colName, VObj [("deepEqual", v)])] m)) ->
      In r (selected_rows (where_ [(colName, VObj [("equal", v)])] m)).
Proof.
  intros m colName v entry Hfind r.
  assert (Hstrict :
            selected_rows (where_ [(colName, VObj [("deepEqual", v)])] m)
            = filter (fun r => strict_eq (getValue (sheet m) r (fst entry)) v)
                     (candidate_rows (getLastRow (sheet m)))).
  { apply (where_single_test m colName _ entry (fun p => strict_eq p v) Hfind).
    intro r'. rewrite criterion_methods_operator by reflexivity.
    apply (row_matches_single _ _ _ _ (fun p => strict_eq p v)). reflexivity. }
  assert (Hloose :
            selected_rows (where_ [(colName, VObj [("equal", v)])] m)
            = filter (fun r => loose_eq (getValue (sheet m) r (fst entry)) v)
                     (candidate_rows (getLastRow (sheet m)))).
  { apply (where_single_test m colName _ entry (fun p => loose_eq p v) Hfind).
    intro r'. rewrite criterion_methods_operator by reflexivity.
    apply (row_matches_single _ _ _ _ (fun p => loose_eq p v)). reflexivity. }
  rewrite Hstrict, Hloose.
  apply filter_sublist. intros x. apply strict_implies_loose.
Qed.

Lemma deepEqual_rows_are_equal_rows_witness :
  let typed : Sheet := [ [PStr "age"]; [PNum (Fin 28)]; [PStr "28"] ] in
  let m := mkRangeManager typed [] None 1 in
  selected_rows (where_ [("age", VObj [("deepEqual", VPrim (PNum (Fin 28)))])] m)
  = [2]
  /\ In 2 (selected_rows (where_ [("age", VObj [("equal", VPrim (PNum (Fin 28)))])] m))
  /\ selected_rows (where_ [("age", VObj [("equal", VPrim (PNum (Fin 28)))])] m)
     = [2; 3].
Proof.
  split; [vm_compute; reflexivity|]. split; [|vm_compute; reflexivity].
  apply (deepEqual_rows_are_equal_rows
           (mkRangeManager [ [PStr "age"]; [PNum (Fin 28)]; [PStr "28"] ]
                           [] None 1)
           "age" (VPrim (PNum (Fin 28))) (1, PStr "age") eq_refl).
  vm_compute. tauto.
Defined.

Lemma some_result_regexps (p : prim) (res : list (string * (string -> bool))) :
  some_result (exec_matches p) (regexps res)
  = Ok (existsb (fun re => snd re (prim_to_string p)) res).
Proof.
  induction res as [|[text exec] rest IH]; simpl; [reflexivity|].
  destruct (exec (prim_to_string p)); [reflexivity | exact IH].
Qed.

(** X19.  [matchAny] on an array of regular expressions none of which is
    global or sticky (no [g] and no [y] flag, so that [exec] answers the
    same at every call) keeps the candidate rows on whose cell, turned to a
    string, at least one of them finds a match; none when the array is
    empty; and with one such expression it selects what [match] selects with
    that expression. *)
Theorem matchAny_is_some_match :
  forall (m : RangeManager) (colName : string)
         (res : list (string * (string -> bool))) (entry : Z * prim),
    find_header (headers m) colName = Some entry ->
    stateless_regexps res ->
    let text_of r := prim_to_string (getValue (sheet m) r (fst entry)) in
    let scanned := candidate_rows (getLastRow (sheet m)) in
    selected_rows (where_ [(colName, VObj [("matchAny", VArr (regexps res))])] m)
    = filter (fun r => existsb (fun re => snd re (text_of r)) res) scanned
    /\ selected_rows (where_ [(colName, VObj [("matchAny", VArr [])])] m) = []
    /\ forall text exec,
         keeps_lastIndex text = false ->
         selected_rows
           (where_ [(colName, VObj [("matchAny", VArr [VRegExp text exec])])] m)
         = selected_rows
             (where_ [(colName, VObj [("match", VRegExp text exec)])] m).
Proof.
  intros m colName res entry Hfind _ text_of scanned.
  assert (Hany : forall res',
             selected_rows
               (where_ [(colName, VObj [("matchAny", VArr (regexps res'))])] m)
             = filter (fun r => existsb (fun re => snd re (text_of r)) res')
                      scanned).
  { intro res'.
    apply (where_single_test m colName _ entry
             (fun p => existsb (fun re => snd re (prim_to_string p)) res')
             Hfind).
    intro r. rewrite criterion_methods_operator by reflexivity.
    apply (row_matches_single _ _ _ _
             (fun p => existsb (fun re => snd re (prim_to_string p)) res')).
    intro p. apply some_result_regexps. }
  split; [apply Hany|]. split.
  - change (@nil value) with (regexps []). rewrite (Hany []). cbn [existsb].
    apply filter_nil. reflexivity.
  - intros text exec _.
    change [VRegExp text exec] with (regexps [(text, exec)]).
    rewrite (Hany [(text, exec)]). symmetry.
    apply (where_single_test m colName _ entry
             (fun p => existsb (fun re => snd re (prim_to_string p))
                               [(text, exec)]) Hfind).
    intro r. rewrite criterion_methods_operator by reflexivity.
    apply (row_matches_single _ _ _ _
             (fun p => existsb (fun re => snd re (prim_to_string p))
                               [(text, exec)])).
    intro p. unfold call_method. cbn. rewrite orb_false_r. reflexivity.
Qed.

Lemma matchAny_is_some_match_witness :
  selected_rows
    (where_ [("name", VObj [("matchAny",
                             VArr (regexps [("/^A/", String.prefix "A");
                                            ("/^C/", String.prefix "C")]))])]
            (mkRangeManager people [] None 4))
  = [2; 4].
Proof.
  pose proof (matchAny_is_some_match
                (mkRangeManager people [] None 4) "name"
                [("/^A/", String.prefix "A"); ("/^C/", String.prefix "C")]
                (1, PStr "name") eq_refl
                ltac:(intros re [<-|[<-|[]]]; reflexivity)) as H.
  cbv zeta in H. destruct H as [H _]. rewrite H. reflexivity.
Defined.

(** ** [where] then [update] *)

Lemma update_runs_loop (data : Obj.t prim) (m : RangeManager) :
  update data m = forEach (update_row data) (ranges m) m.
Proof.
  unfold update, bind, this.
  destruct (ranges m) as [|n rest]; reflexivity.
Qed.

(** X20.  [where(options).update(data)]: when [where] returns, the
    [update] that follows returns too and writes nowhere but in the rows
    [where] selected; in particular the header row, and with it the header
    mapping, is as before. *)
Theorem where_then_update_keeps_other_rows :
  forall (options : WhereOptions) (data : Obj.t prim) (m m' : RangeManager),
    where_ options m = Return tt m' ->
    exists m'',
      update data m' = Return tt m''
      /\ (forall r c, ~ In r (map row (ranges m')) ->
                      getValue (sheet m'') r c = getValue (sheet m) r c)
      /\ headers m'' = headers m.
Proof.
  intros options data m m' H.
  destruct (update_returns data m') as [m'' Hrun]. exists m''.
  assert (Hsheet : sheet m' = sheet m /\ lastColumnNumber m' = lastColumnNumber m)
    by (destruct (where_returns options m m' H) as [cols [_ ->]];
        split; reflexivity).
  assert (Hother : forall r c, ~ In r (map row (ranges m')) ->
                               getValue (sheet m'') r c = getValue (sheet m) r c).
  { intros r c Hr. rewrite <- (proj1 Hsheet).
    replace m'' with (final (update data m')) by (rewrite Hrun; reflexivity).
    rewrite update_runs_loop.
    apply forEach_update_row_other_rows.
    intros n Hn Heq. apply Hr. rewrite <- Heq. apply in_map. exact Hn. }
  assert (Hframe : lastColumnNumber m'' = lastColumnNumber m').
  { replace m'' with (final (update data m')) by (rewrite Hrun; reflexivity).
    rewrite update_runs_loop. clear.
    generalize (ranges m') at 1. intro rs. revert m'.
    induction rs as [|n rest IH]; intro m'; simpl; [reflexivity|].
    unfold bind. rewrite update_row_returns. rewrite IH. reflexivity. }
  split; [exact Hrun|]. split; [exact Hother|].
  assert (Hrow1 : ~ In 1 (map row (ranges m'))).
  { intro Hin. destruct (where_returns options m m' H) as [cols [_ ->]].
    cbn [ranges set_ranges] in Hin.
    rewrite row_notations in Hin
      by (intros r Hr; apply (candidate_rows_nonzero _ _ _ Hr)).
    apply filter_In in Hin. destruct Hin as [Hin _].
    apply candidate_rows_spec in Hin. unfold firstRowNumber in Hin. lia. }
  rewrite !headers_closed_form, Hframe, (proj2 Hsheet).
  apply map_ext. intro j. rewrite (Hother 1 _ Hrow1). reflexivity.
Qed.

Lemma where_then_update_keeps_other_rows_witness :
  let m := mkRangeManager people [] None 4 in
  let options : WhereOptions := [("name", VPrim (PStr "Bob"))] in
  exists m'',
    update [("age", PNum (Fin 36))] (final (where_ options m)) = Return tt m''
    /\ getValue (sheet m'') 2 2 = PNum (Fin 28)
    /\ getValue (sheet m'') 3 2 = PNum (Fin 36).
Proof.
  destruct (where_then_update_keeps_other_rows
              [("name", VPrim (PStr "Bob"))] [("age", PNum (Fin 36))]
              (mkRangeManager people [] None 4)
              (final (where_ [("name", VPrim (PStr "Bob"))]
                             (mkRangeManager people [] None 4)))
              ltac:(vm_compute; reflexivity)) as [m'' [Hrun [Hother _]]].
  exists m''. split; [exact Hrun|]. split.
  - rewrite Hother; [reflexivity|]. vm_compute. intuition discriminate.
  - vm_compute in Hrun. injection Hrun as <-. vm_compute. reflexivity.
Defined.
